(** * EVA Voyager 21 ground station: decoding core

    A shallow embedding of the decoding functions of the rover dashboard:
    - [Grid]      : [src/components/Grid20x20.tsx]   (matrix line decoder)
    - [Feed]      : [src/lib/useWebSocketFeed.ts]    (serial line handler)
    - [App]       : [src/App.tsx]                    (image recomputed on read)
    - [Telemetry] : [TelemetryColumn.tsx]            (alias lookup, rendering)
    - [Charts]    : [ChartsColumn.tsx]               (unit normalisation)
    - [Hook]      : [src/lib/useWebSocketFeed.ts]    (the whole message handler)
    - [UseTelemetry] : [TelemetryColumn.tsx]         (the record buffer)
    - [ChartKeys] : [ChartsColumn.tsx]               (the keys that are plotted)
    - [AppView], [SerialFooter], [GridView] : what the components show

    Conventions.  A JavaScript string is a [string]: every [ascii] is one
    UTF-16 code unit below 256, so the development covers the Latin-1
    strings (the firmware's lines are ASCII).  A JavaScript number is a
    binary64 [float].  [undefined] and [null] results are [None]. *)

From Stdlib Require Import Ascii String Floats Uint63.
From stdpp Require Import base list sorting strings gmap.

(* ===================================================================== *)
(** * JavaScript string primitives *)
(* ===================================================================== *)

Module Js.

(** White space and line terminators of ECMAScript that fit in one
    Latin-1 code unit: TAB, LF, VT, FF, CR, SP and NBSP. *)
Definition isWhiteSpace (c : ascii) : bool :=
  match c with
  | "009" | "010" | "011" | "012" | "013" | " " | "160" => true
  | _ => false
  end%char.

Fixpoint trimStart (s : string) : string :=
  match s with
  | "" => ""
  | String c r => if isWhiteSpace c then trimStart r else s
  end.

Fixpoint trimEnd (s : string) : string :=
  match s with
  | "" => ""
  | String c r =>
      match trimEnd r with
      | "" => if isWhiteSpace c then "" else String c ""
      | r' => String c r'
      end
  end.

(** [s.trim()] *)
Definition trim (s : string) : string := trimEnd (trimStart s).

(** [s.split(sep)] for a one-character separator: the token in progress
    and the tokens that follow it. *)
Fixpoint split_go (sep : ascii) (s : string) : string * list string :=
  match s with
  | "" => ("", [])
  | String c r =>
      let '(t, ts) := split_go sep r in
      if Ascii.eqb c sep then ("", t :: ts) else (String c t, ts)
  end.

Definition split (sep : ascii) (s : string) : list string :=
  let '(t, ts) := split_go sep s in t :: ts.

(** [arr.indexOf(x)]; [None] stands for [-1]. *)
Fixpoint indexOf (x : string) (arr : list string) : option nat :=
  match arr with
  | [] => None
  | y :: ys => if String.eqb y x then Some 0 else S <$> indexOf x ys
  end.

(** [s.startsWith(p)] *)
Definition startsWith (p s : string) : bool := String.prefix p s.

(** [s.includes(p)] *)
Fixpoint includes (p s : string) : bool :=
  String.prefix p s ||
  match s with
  | "" => false
  | String _ r => includes p r
  end.

(** [s.endsWith(p)] *)
Fixpoint endsWith (p s : string) : bool :=
  String.eqb s p ||
  match s with
  | "" => false
  | String _ r => endsWith p r
  end.

(** Lower-casing of one Latin-1 code unit: A-Z, and the accented capitals
    U+00C0..U+00DE except the multiplication sign U+00D7. *)
Definition lowerChar (c : ascii) : ascii :=
  let n := nat_of_ascii c in
  if (65 <=? n) && (n <=? 90) then ascii_of_nat (n + 32)
  else if (192 <=? n) && (n <=? 222) && negb (n =? 215) then ascii_of_nat (n + 32)
  else c.

(** [s.toLowerCase()] *)
Fixpoint toLowerCase (s : string) : string :=
  match s with
  | "" => ""
  | String c r => String (lowerChar c) (toLowerCase r)
  end.

(** [s.replace(/[\s_\-]+/g, "")]: every white space, underscore and
    hyphen is removed. *)
Fixpoint stripSeparators (s : string) : string :=
  match s with
  | "" => ""
  | String c r =>
      if isWhiteSpace c || Ascii.eqb c "_" || Ascii.eqb c "-"
      then stripSeparators r
      else String c (stripSeparators r)
  end.

(** [Number(ch)] for a one-character string; [None] stands for [NaN].
    A white-space character converts to [0]. *)
Definition NumberOfChar (ch : ascii) : option nat :=
  match Ascii.is_nat ch with
  | Some d => Some d
  | None => if isWhiteSpace ch then Some 0 else None
  end.

(** [arr.join("")] *)
Definition join (arr : list string) : string := String.concat "" arr.

(** [Array.from(s)]: the characters of [s]. *)
Definition chars (s : string) : list ascii := list_ascii_of_string s.

End Js.

(* ===================================================================== *)
(** * Grid20x20.tsx: the matrix line decoder *)
(* ===================================================================== *)

Module Grid.

Definition GRID_ROWS : nat := 10.
Definition GRID_COLS : nat := 10.
Definition START_ROW : nat := GRID_ROWS - 1.
Definition START_COL : nat := 0.

Inductive Direction := DirN | DirE | DirS | DirW.

Record RoverPose := { row : nat; col : nat; dir : Direction }.

Record Cell := { visited : bool; obstacle : bool }.

Definition initialPose : RoverPose :=
  {| row := START_ROW; col := START_COL; dir := DirN |}.

Definition emptyCell : Cell := {| visited := false; obstacle := false |}.

Definition emptyRow : list Cell := replicate GRID_COLS emptyCell.

Definition createEmptyGrid : list (list Cell) := replicate GRID_ROWS emptyRow.

Definition codeToDirection (code : nat) : Direction :=
  match code with
  | 2 => DirN
  | 3 => DirE
  | 4 => DirW
  | 5 => DirS
  | _ => DirN
  end.

(** The mutable locals of one [chars.forEach] pass: the row under
    construction and the pose variable of the enclosing function. *)
Record RowScan := { rowCells : list Cell; roverPose : option RoverPose }.

(** Body of the [forEach] callback for character [ch] at index [c]. *)
Definition scanChar (visualRow : nat) (st : RowScan) (c : nat) (ch : ascii)
  : RowScan :=
  match Js.NumberOfChar ch with
  | Some 1 =>
      {| rowCells := rowCells st ++ [{| visited := false; obstacle := true |}];
         roverPose := roverPose st |}
  | Some v =>
      if (2 <=? v) && (v <=? 5) then
        {| rowCells := rowCells st ++ [emptyCell];
           roverPose := Some {| row := visualRow; col := c;
                                dir := codeToDirection v |} |}
      else
        {| rowCells := rowCells st ++ [emptyCell]; roverPose := roverPose st |}
  | None =>
      {| rowCells := rowCells st ++ [emptyCell]; roverPose := roverPose st |}
  end.

(** [chars.forEach((ch, c) => ...)] from index [c] on. *)
Fixpoint forEachChar (visualRow : nat) (chs : list ascii) (c : nat)
    (st : RowScan) : RowScan :=
  match chs with
  | [] => st
  | ch :: rest => forEachChar visualRow rest (S c) (scanChar visualRow st c ch)
  end.

(** The mutable locals of [parseMatrixLine]. *)
Record Parsed := { grid : list (list Cell); pose : option RoverPose }.

(** One iteration of the [for (visualRow ...)] loop.  [tokenIndex] is
    below [numRows], hence an index of [rowTokens]: the default of the
    lookup is never used. *)
Definition rowStep (rowTokens : list string) (numRows : nat)
    (acc : Parsed) (visualRow : nat) : Parsed :=
  let tokenIndex := numRows - 1 - visualRow in
  let rowStr := default "" (rowTokens !! tokenIndex) in
  let trimmed := Js.trim rowStr in
  if String.eqb trimmed "" then
    {| grid := grid acc ++ [emptyRow]; pose := pose acc |}
  else
    let r := forEachChar visualRow (Js.chars trimmed) 0
               {| rowCells := []; roverPose := pose acc |} in
    {| grid := grid acc ++ [rowCells r]; pose := roverPose r |}.

(** [parts.slice(idxM + 1)], or [None] where the function returns [null]
    before the loop. *)
Definition rowTokensOf (line : string) : option (list string) :=
  let parts := Js.split "," line in
  match Js.indexOf "M" parts with
  | None => None
  | Some idxM =>
      let rowTokens := drop (S idxM) parts in
      if length rowTokens =? 0 then None else Some rowTokens
  end.

Definition parseRows (rowTokens : list string) : Parsed :=
  let numRows := Nat.min (length rowTokens) GRID_ROWS in
  foldl (rowStep rowTokens numRows) {| grid := []; pose := None |}
        (seq 0 numRows).

Definition parseMatrixLine (line : string) : option Parsed :=
  parseRows <$> rowTokensOf line.

(** State of the component: the two [useState] cells and [poseRef]. *)
Record State := {
  st_grid : list (list Cell);
  st_pose : RoverPose;
  st_poseRef : RoverPose
}.

Definition initialState : State :=
  {| st_grid := createEmptyGrid; st_pose := initialPose;
     st_poseRef := initialPose |}.

Definition applyMatrix (line : string) (st : State) : State :=
  match parseMatrixLine line with
  | None => st
  | Some parsed =>
      let st1 := {| st_grid := grid parsed; st_pose := st_pose st;
                    st_poseRef := st_poseRef st |} in
      match pose parsed with
      | Some newPose =>
          {| st_grid := st_grid st1; st_pose := newPose;
             st_poseRef := newPose |}
      | None => st1
      end
  end.

(** The effect on [matrixLine]: a [null] or empty prop is skipped. *)
Definition matrixLineEffect (matrixLine : option string) (st : State) : State :=
  match matrixLine with
  | None => st
  | Some line => if String.eqb line "" then st else applyMatrix line st
  end.

End Grid.

(* ===================================================================== *)
(** * useWebSocketFeed.ts: the serial line handler *)
(* ===================================================================== *)

Module Feed.

Definition B64_IMAGE_START : string := "B64_IMAGE_START".
Definition B64_IMAGE_END : string := "B64_IMAGE_END".
Definition CONSOLE_CAP : nat := 2000.

Record ConsoleLine := { ts : float; text : string }.

(** [imageCaptureRef.current] *)
Record ImageCapture := { pending : bool; chunks : list string }.

(** The state cells of the hook that a [serial_in] message can touch. *)
Record State := {
  consoleLines : list ConsoleLine;
  imageCapture : ImageCapture;
  lastImageDataUrl : option string;
  lastMatrixLine : option string
}.

Definition initialState : State :=
  {| consoleLines := [];
     imageCapture := {| pending := false; chunks := [] |};
     lastImageDataUrl := None;
     lastMatrixLine := None |}.

(** The updater given to [setConsoleLines]. *)
Definition pushConsole (prev : list ConsoleLine) (l : ConsoleLine)
  : list ConsoleLine :=
  let next := prev ++ [l] in
  if CONSOLE_CAP <? length next
  then drop (length next - CONSOLE_CAP) next
  else next.

Definition dataUrl (base64 : string) : string :=
  "data:image/jpeg;base64," +:+ base64.

(** The [msg.type === "serial_in"] branch of [handleMessage], for a
    message whose time stamp is [ts] (already in milliseconds) and whose
    line is [text].  The second component is the argument of the call to
    [setLastImageDataUrl] made by this message, if there is one. *)
Definition handleSerialIn (ts : float) (text : string) (st : State)
  : State * option string :=
  let console' := pushConsole (consoleLines st) {| ts := ts; text := text |} in
  let capture := imageCapture st in
  if String.eqb text B64_IMAGE_START then
    ({| consoleLines := console';
        imageCapture := {| pending := true; chunks := [] |};
        lastImageDataUrl := lastImageDataUrl st;
        lastMatrixLine := lastMatrixLine st |}, None)
  else if String.eqb text B64_IMAGE_END then
    let emitted :=
      if pending capture && (0 <? length (chunks capture))
      then Some (dataUrl (Js.join (chunks capture)))
      else None in
    ({| consoleLines := console';
        imageCapture := {| pending := false; chunks := [] |};
        lastImageDataUrl :=
          match emitted with
          | Some url => Some url
          | None => lastImageDataUrl st
          end;
        lastMatrixLine := lastMatrixLine st |}, emitted)
  else if pending capture then
    ({| consoleLines := console';
        imageCapture := {| pending := true;
                           chunks := chunks capture ++ [Js.trim text] |};
        lastImageDataUrl := lastImageDataUrl st;
        lastMatrixLine := lastMatrixLine st |}, None)
  else if Js.startsWith "RECV_ROVER_" text && Js.includes ",M," text then
    ({| consoleLines := console';
        imageCapture := capture;
        lastImageDataUrl := lastImageDataUrl st;
        lastMatrixLine := Some text |}, None)
  else
    ({| consoleLines := console';
        imageCapture := capture;
        lastImageDataUrl := lastImageDataUrl st;
        lastMatrixLine := lastMatrixLine st |}, None).

(** A stream of [serial_in] messages handled in order; the images set on
    the way are collected in order. *)
Fixpoint run (msgs : list (float * string)) (st : State)
  : State * list string :=
  match msgs with
  | [] => (st, [])
  | (ts, text) :: rest =>
      let '(st1, e) := handleSerialIn ts text st in
      let '(st2, es) := run rest st1 in
      (st2, option_list e ++ es)
  end.

End Feed.

(* ===================================================================== *)
(** * App.tsx: the image recomputed from the console *)
(* ===================================================================== *)

Module App.

(** [getLineText] on the objects the hook stores: [item.text] is a
    string. *)
Definition getLineText (item : Feed.ConsoleLine) : string := Feed.text item.

(** The loop variables of [extractLastImageFromConsole]. *)
Record Scan := {
  capturing : bool;
  buffer : list string;
  lastImage : option string
}.

Definition scanStart : Scan :=
  {| capturing := false; buffer := []; lastImage := None |}.

(** Body of the [for (const item of lines)] loop. *)
Definition scanLine (st : Scan) (item : Feed.ConsoleLine) : Scan :=
  let raw := Js.trim (getLineText item) in
  if String.eqb raw "" then st
  else if String.eqb raw "B64_IMAGE_START" then
    {| capturing := true; buffer := []; lastImage := lastImage st |}
  else if String.eqb raw "B64_IMAGE_END" then
    {| capturing := false; buffer := buffer st;
       lastImage :=
         if capturing st && (0 <? length (buffer st))
         then Some (Js.join (buffer st))
         else lastImage st |}
  else if capturing st then
    {| capturing := true; buffer := buffer st ++ [raw];
       lastImage := lastImage st |}
  else st.

Definition extractLastImageFromConsole (lines : list Feed.ConsoleLine)
  : option string :=
  lastImage (foldl scanLine scanStart lines).

End App.

(* ===================================================================== *)
(** * TelemetryColumn.tsx: alias lookup and rendering *)
(* ===================================================================== *)

Module Telemetry.

(** The values of [TelemetryRecord.data]. *)
Inductive JsValue :=
| JNum (n : float)
| JStr (s : string)
| JBool (b : bool)
| JNull.

(** A record is the list of its own properties in [Object.keys] order;
    a well-formed record has no key twice. *)
Abbreviation Obj := (list (string * JsValue)).

Definition wf (obj : Obj) : Prop := NoDup obj.*1.

(** [obj[k]]; [None] is [undefined]. *)
Fixpoint get (obj : Obj) (k : string) : option JsValue :=
  match obj with
  | [] => None
  | (k', v) :: rest => if String.eqb k' k then Some v else get rest k
  end.

(** [k in obj], decided by the own properties: the records are decoded
    JSON objects and no alias of the tables below names a property of
    [Object.prototype]. *)
Definition has (obj : Obj) (k : string) : bool :=
  match get obj k with Some _ => true | None => false end.

Definition keys (obj : Obj) : list string := obj.*1.

(** The [norm] closure of [getField]. *)
Definition norm (s : string) : string :=
  Js.stripSeparators (Js.toLowerCase s).

(** [for (const k of keys) m.set(f(k), k)] on a fresh [Map]. *)
Definition indexKeys (f : string → string) (ks : list string)
  : gmap string string :=
  foldl (λ m k, <[f k := k]> m) ∅ ks.

(** A loop either falls through ([None]) or returns a value ([Some r],
    where [r] may be [undefined]). *)

(** [for (const n of names) if (n in obj) return obj[n]] *)
Fixpoint exactPass (obj : Obj) (names : list string)
  : option (option JsValue) :=
  match names with
  | [] => None
  | n :: rest => if has obj n then Some (get obj n) else exactPass obj rest
  end.

(** [for (const n of names) { const real = m.get(f(n));
       if (real !== undefined) return obj[real]; }] *)
Fixpoint mapPass (obj : Obj) (m : gmap string string) (f : string → string)
    (names : list string) : option (option JsValue) :=
  match names with
  | [] => None
  | n :: rest =>
      match m !! f n with
      | Some real => Some (get obj real)
      | None => mapPass obj m f rest
      end
  end.

Definition getField (obj : Obj) (names : list string) : option JsValue :=
  let ks := keys obj in
  match exactPass obj names with
  | Some r => r
  | None =>
      let lower := indexKeys Js.toLowerCase ks in
      match mapPass obj lower Js.toLowerCase names with
      | Some r => r
      | None =>
          let normMap := indexKeys norm ks in
          match mapPass obj normMap norm names with
          | Some r => r
          | None => None
          end
      end
  end.

Inductive Category :=
| rssi | avgRssi
| temp1 | hum1 | temp2 | hum2
| vEsp | iEsp | pEsp
| vM1 | iM1 | pM1 | vM2 | iM2 | pM2
| accX | accY | accZ
| gyroX | gyroY | gyroZ
| dist1 | dist2 | dist3.

Definition NAMES (c : Category) : list string :=
  match c with
  | rssi => ["Rssi"; "RSSI"; "rssi"; "rssi_dbm"; "dbm"]
  | avgRssi => ["avgRssi"; "avg_rssi"; "rssi_avg"]
  | temp1 => ["Temp 1"; "Temp1"; "temp1"; "temperature1"; "t1"]
  | hum1 => ["Hum 1"; "Hum1"; "hum1"; "humidity1"; "h1"; "rh1"]
  | temp2 => ["Temp 2"; "Temp2"; "temp2"; "temperature2"; "t2"]
  | hum2 => ["Hum 2"; "Hum2"; "hum2"; "humidity2"; "h2"; "rh2"]
  | vEsp => ["V Esp"; "V_Esp"; "v_esp"; "esp_v"; "v_bus"; "v_batt"; "vbatt"]
  | iEsp => ["I Esp"; "I_Esp"; "i_esp"; "esp_i"; "i_total"]
  | pEsp => ["P Esp"; "P_Esp"; "p_esp"; "esp_p"; "power"]
  | vM1 => ["V M1"; "V_M1"; "v_m1"; "vm1"; "motor1_v"]
  | iM1 => ["I M1"; "I_M1"; "i_m1"; "i1"; "motor1_i"; "i_left"; "i_motor_left"]
  | pM1 => ["P M1"; "P_M1"; "p_m1"; "pm1"; "motor1_p"]
  | vM2 => ["V M2"; "V_M2"; "v_m2"; "vm2"; "motor2_v"]
  | iM2 => ["I M2"; "I_M2"; "i_m2"; "i2"; "motor2_i"; "i_right"; "i_motor_right"]
  | pM2 => ["P M2"; "P_M2"; "p_m2"; "pm2"; "motor2_p"]
  | accX => ["acc X"; "accX"; "acc_x"; "ax"; "accx"]
  | accY => ["acc Y"; "accY"; "acc_y"; "ay"; "accy"]
  | accZ => ["acc Z"; "accZ"; "acc_z"; "az"; "accz"]
  | gyroX => ["gyro X"; "gyroX"; "gyro_x"; "gx"]
  | gyroY => ["gyro Y"; "gyroY"; "gyro_y"; "gy"]
  | gyroZ => ["gyro Z"; "gyroZ"; "gyro_z"; "gz"]
  | dist1 => ["Dist 1"; "Dist1"; "dist1"; "distance1"; "ultra1"]
  | dist2 => ["Dist 2"; "Dist2"; "dist2"; "distance2"; "ultra2"]
  | dist3 => ["Dist 3"; "Dist3"; "dist3"; "distance3"; "ultra3"]
  end.

(** What a [LineKV] shows: the dash, or [n.toFixed(digits)] followed by
    the unit when there is one. *)
Inductive Rendered :=
| Dash
| Fixed (n : float) (digits : nat) (unit : option string).

Section Rendering.

(** [v.match(/-?\d+(\.\d+)?/)] followed by [Number(m[0])]: the number
    read from the first decimal numeral of a string, if it has one. *)
Variable numeral : string → option float.

Definition toNumberOrUndefined (v : option JsValue) : option float :=
  match v with
  | None | Some JNull => None
  | Some (JNum n) => if PrimFloat.is_finite n then Some n else None
  | Some (JStr s) => numeral s
  | Some (JBool _) => None
  end.

Definition fmt (v : option JsValue) (unit : option string) (digits : nat)
  : Rendered :=
  match toNumberOrUndefined v with
  | None => Dash
  | Some n => Fixed n digits unit
  end.

Definition fmtScaled100 (v : option JsValue) (unit : option string)
    (digits : nat) : Rendered :=
  match toNumberOrUndefined v with
  | None => Dash
  | Some n => Fixed (n / 100)%float digits unit
  end.

Definition degC : string := String "176"%char "C".

(** The value shown by [TelemetryColumn] for the fields resolved from
    the data [d] of the displayed record. *)
Definition TelemetryColumn (c : Category) (d : Obj) : Rendered :=
  let v := getField d (NAMES c) in
  match c with
  | rssi | avgRssi => fmt v (Some "dBm") 0
  | temp1 | temp2 => fmtScaled100 v (Some degC) 2
  | hum1 | hum2 => fmtScaled100 v (Some "%") 2
  | vEsp | vM1 | vM2 => fmt v (Some "mV") 2
  | iEsp | iM1 | iM2 => fmt v (Some "mA") 2
  | pEsp | pM1 | pM2 => fmt v (Some "mW") 2
  | accX | accY | accZ | gyroX | gyroY | gyroZ
  | dist1 | dist2 | dist3 => fmt v None 2
  end.

End Rendering.

End Telemetry.

(* ===================================================================== *)
(** * ChartsColumn.tsx: unit normalisation of the plotted series *)
(* ===================================================================== *)

Module Charts.

Definition normalizeValue (key : string) (raw : float) : float :=
  let k := Js.toLowerCase key in
  if Js.includes "temp" k || String.eqb k "t1" || String.eqb k "t2" then
    (raw / 100)%float
  else if Js.includes "hum" k then
    (raw / 100)%float
  else if String.eqb k "v" || Js.includes "volt" k || Js.includes "vbatt" k
          || Js.includes "vbus" k || Js.startsWith "v_" k
          || Js.endsWith "_v" k then
    (raw / 1000)%float
  else if String.eqb k "i" || Js.includes "current" k
          || Js.startsWith "i_" k || Js.endsWith "_i" k then
    (raw / 1000)%float
  else if String.eqb k "p" || Js.includes "power" k || Js.endsWith "_w" k
          || Js.includes "mw" k then
    (raw / 1000)%float
  else raw.

Inductive Series := distance | current | voltage | temperature.

Definition defaultAliases (s : Series) : list string :=
  match s with
  | distance =>
      ["dist1"; "dist2"; "dist3"; "distance"; "distance_cm";
       "ultra1"; "ultra2"; "ultra3"]
  | current =>
      ["i"; "i_total"; "current"; "i_left"; "i_right"; "i_motor_left";
       "i_motor_right"; "esp_i"; "current_a"; "i_esp"; "i_m1"; "i_m2"]
  | voltage =>
      ["v"; "voltage"; "v_bus"; "v_batt"; "esp_v"; "vbatt"; "vout";
       "v_esp"; "v_m1"; "v_m2"]
  | temperature => ["temp1"; "temp2"; "temperature"; "t1"; "t2"]
  end.

End Charts.

(* ===================================================================== *)
(** * Decoded JSON values *)
(* ===================================================================== *)

Module Json.

(** A value returned by [JSON.parse]; the fields of an object are its own
    properties in [Object.keys] order, no key twice. *)
#[local] Unset Elimination Schemes.

Inductive t :=
| Null
| Bool (b : bool)
| Num (n : float)
| Str (s : string)
| Arr (items : list t)
| Obj (fields : list (string * t)).

#[local] Set Elimination Schemes.

(** The own property [k] of an object. *)
Fixpoint lookup (fields : list (string * t)) (k : string) : option t :=
  match fields with
  | [] => None
  | (k', v) :: rest => if String.eqb k' k then Some v else lookup rest k
  end.

(** [v.k] for a field name [k] that is no built-in property: it is read
    from an object and is [undefined] on every other value.  (The names
    read this way are [type], [row], [data], [ts], [line], [data_url],
    [b64], [mime], [channel], [kind], [payload] and [telemetry].) *)
Definition prop (v : t) (k : string) : option t :=
  match v with
  | Obj fields => lookup fields k
  | _ => None
  end.

(** [!!v] *)
Definition truthy (v : t) : bool :=
  match v with
  | Null => false
  | Bool b => b
  | Num n => negb (PrimFloat.is_zero n || PrimFloat.is_nan n)
  | Str s => negb (String.eqb s "")
  | Arr _ | Obj _ => true
  end.

(** [a ?? b]: [b] when [a] is [undefined] or [null]. *)
Definition coalesce (a b : option t) : option t :=
  match a with
  | None | Some Null => b
  | Some _ => a
  end.

(** The number of an array or string length. *)
Definition lengthNumber (n : nat) : float :=
  PrimFloat.of_uint63 (Uint63.of_Z (Z.of_nat n)).

Definition isDigit (c : ascii) : bool :=
  match Ascii.is_nat c with Some _ => true | None => false end.

Fixpoint digitsValue (acc : nat) (s : string) : option nat :=
  match s with
  | "" => Some acc
  | String c r =>
      match Ascii.is_nat c with
      | Some d => digitsValue (10 * acc + d) r
      | None => None
      end
  end.

(** The array index a property name denotes: a decimal numeral without a
    leading zero. *)
Definition arrayIndex (name : string) : option nat :=
  match name with
  | "" => None
  | String "0" "" => Some 0
  | String "0" _ => None
  | _ => digitsValue 0 name
  end.

(** [v[name]] when [typeof v[name] === "number"], for a [v] that is not
    [null] or [undefined]: an own numeric field of an object, an element
    or the length of an array, the length of a string. *)
Definition numberAt (v : t) (name : string) : option float :=
  match v with
  | Obj fields =>
      match lookup fields name with
      | Some (Num n) => Some n
      | _ => None
      end
  | Arr items =>
      if String.eqb name "length" then Some (lengthNumber (length items))
      else match arrayIndex name with
           | Some i =>
               match items !! i with
               | Some (Num n) => Some n
               | _ => None
               end
           | None => None
           end
  | Str s =>
      if String.eqb name "length" then Some (lengthNumber (String.length s))
      else None
  | Null | Bool _ | Num _ => None
  end.

End Json.

(* ===================================================================== *)
(** * useWebSocketFeed.ts: the whole message handler *)
(* ===================================================================== *)

Module Hook.

(** The state cells [handleMessage] writes: [rows] and those of the serial
    branch. *)
Record State := { rows : list Json.t; feed : Feed.State }.

Definition initialState : State :=
  {| rows := []; feed := Feed.initialState |}.

Section Handler.

(** The argument of the hook. *)
Variable maxRows : nat.

(** [String(v)] for a [line] that is neither a string nor [null];
    [None] when the conversion throws, as it does for an object whose own
    [toString] is not a function. *)
Variable toText : Json.t → option string.

(** The updater given to [setRows]. *)
Definition pushRow (prev : list Json.t) (row : Json.t) : list Json.t :=
  let next := prev ++ [row] in
  if maxRows <? length next
  then drop (length next - maxRows) next
  else next.

Definition setLastImageDataUrl (url : string) (st : State) : State :=
  {| rows := rows st;
     feed := {| Feed.consoleLines := Feed.consoleLines (feed st);
                Feed.imageCapture := Feed.imageCapture (feed st);
                Feed.lastImageDataUrl := Some url;
                Feed.lastMatrixLine := Feed.lastMatrixLine (feed st) |} |}.

(** [handleMessage] on a message whose data parsed to [parsed] ([None]
    when [JSON.parse] throws), received when [Date.now()] is [now].  The
    body runs inside [try], so a throw leaves every state cell as it is:
    the text of a serial line is computed before the first cell is
    written. *)
Definition handleMessage (now : float) (parsed : option Json.t) (st : State)
  : State :=
  match parsed with
  | None => st
  | Some msg =>
      if negb (Json.truthy msg) then st
      else
        match Json.prop msg "type" with
        | Some (Json.Str type) =>
            if String.eqb type "telemetry" then
              match Json.coalesce
                      (Json.coalesce (Json.prop msg "row") (Json.prop msg "data"))
                      (Some Json.Null) with
              | Some row =>
                  if negb (Json.truthy row) then st
                  else {| rows := pushRow (rows st) row; feed := feed st |}
              | None => st
              end
            else if String.eqb type "serial_in" then
              let ts :=
                match Json.prop msg "ts" with
                | Some (Json.Num n) => (n * 1000)%float
                | _ => now
                end in
              let text :=
                match Json.prop msg "line" with
                | Some (Json.Str s) => Some s
                | None | Some Json.Null => Some ""
                | Some v => toText v
                end in
              match text with
              | Some text =>
                  {| rows := rows st;
                     feed := (Feed.handleSerialIn ts text (feed st)).1 |}
              | None => st
              end
            else if String.eqb type "image" then
              match Json.prop msg "data_url" with
              | Some (Json.Str url) => setLastImageDataUrl url st
              | _ =>
                  match Json.prop msg "b64" with
                  | Some (Json.Str b64) =>
                      let mime :=
                        match Json.prop msg "mime" with
                        | Some (Json.Str m) => m
                        | _ => "image/jpeg"
                        end in
                      setLastImageDataUrl
                        ("data:" +:+ mime +:+ ";base64," +:+ b64) st
                  | _ => st
                  end
              end
            else st
        | _ => st
        end
  end.

(** A stream of messages, each with the clock reading at its arrival. *)
Definition run (events : list (float * option Json.t)) (st : State) : State :=
  foldl (λ s e, handleMessage e.1 e.2 s) st events.

End Handler.

End Hook.

(* ===================================================================== *)
(** * TelemetryColumn.tsx: the record buffer of [useTelemetry] *)
(* ===================================================================== *)

Module UseTelemetry.

Record TelemetryRecord := {
  ts : string;
  data : list (string * Json.t);
  seq : nat
}.

(** [records] and [seqRef.current]. *)
Record State := { records : list TelemetryRecord; seqRef : nat }.

Definition initialState : State := {| records := []; seqRef := 0 |}.

(** How a call ends: it returns a value, or it throws. *)
Inductive Outcome (A : Type) :=
| Returned (a : A)
| Thrown.

Arguments Returned {A} a.
Arguments Thrown {A}.

(** [isPlainObject(v)], returning the fields of the object. *)
Definition plainObject (v : option Json.t) : option (list (string * Json.t)) :=
  match v with
  | Some (Json.Obj fields) => Some fields
  | _ => None
  end.

Definition hints : list string :=
  ["rssi"; "temp"; "hum"; "dist"; "gyro"; "acc"; "motor";
   "vm1"; "vm2"; "im1"; "im2"].

(** [looksLikeTelemetry] on a plain object. *)
Definition looksLikeTelemetry (fields : list (string * Json.t)) : bool :=
  existsb (λ k, existsb (λ h, Js.includes h k) hints)
          (Js.toLowerCase <$> fields.*1).

(** The payload chosen by the four rules of the message handler for a
    plain object [obj]. *)
Definition selectPayload (obj : list (string * Json.t))
  : option (list (string * Json.t)) :=
  let typeRaw :=
    Json.coalesce (Json.coalesce (Json.lookup obj "type") (Json.lookup obj "channel"))
                  (Json.lookup obj "kind") in
  let type :=
    match typeRaw with
    | Some (Json.Str s) => Js.toLowerCase s
    | _ => ""
    end in
  let p1 :=
    if Js.includes "telemetry" type then
      plainObject
        (Json.coalesce
           (Json.coalesce
              (Json.coalesce (Json.lookup obj "data") (Json.lookup obj "payload"))
              (Json.lookup obj "telemetry"))
           (Some Json.Null))
    else None in
  let p2 :=
    match p1 with
    | Some p => Some p
    | None => plainObject (Json.lookup obj "telemetry")
    end in
  let p3 :=
    match p2 with
    | Some p => Some p
    | None =>
        match plainObject (Json.lookup obj "data") with
        | Some d => if looksLikeTelemetry d then Some d else None
        | None => None
        end
    end in
  match p3 with
  | Some p => Some p
  | None => if looksLikeTelemetry obj then Some obj else None
  end.

Section Handler.

(** The option [maxBuffer]. *)
Variable maxBuffer : nat.

(** [JSON.parse]; [None] when it throws. *)
Variable JSON_parse : string → option Json.t.

(** [extractTs(obj, payload)], which reads the platform's [Date]: it
    returns a string or [undefined], or throws the [RangeError] of
    [toISOString] when a time stamp is out of the range of [Date]. *)
Variable extractTs :
  list (string * Json.t) → list (string * Json.t) → Outcome (option string).

(** [ws.onmessage] for a text frame [data] received when
    [new Date().toISOString()] is [nowIso].  The body runs inside [try];
    [extractTs] is called before [seqRef] and [records] are written, so a
    throw leaves both as they are. *)
Definition onmessage (nowIso : string) (data : string) (st : State) : State :=
  let text := Js.trim data in
  if negb (Js.startsWith "{" text) && negb (Js.startsWith "[" text) then st
  else
    match plainObject (JSON_parse text) with
    | None => st
    | Some obj =>
        match selectPayload obj with
        | None => st
        | Some payload =>
            match extractTs obj payload with
            | Thrown => st
            | Returned extracted =>
                let ts :=
                  match extracted with
                  | Some s => if String.eqb s "" then nowIso else s
                  | None => nowIso
                  end in
                let seq' := seqRef st + 1 in
                let rec := {| ts := ts; data := payload; seq := seq' |} in
                {| records := take maxBuffer (rec :: records st);
                   seqRef := seq' |}
            end
        end
    end.

(** [clear] *)
Definition clear (st : State) : State :=
  {| records := []; seqRef := seqRef st |}.

(** What reaches the hook: a text frame, or a press of the clear button. *)
Inductive Event :=
| Frame (nowIso data : string)
| Clear.

Definition step (st : State) (e : Event) : State :=
  match e with
  | Frame nowIso data => onmessage nowIso data st
  | Clear => clear st
  end.

End Handler.

End UseTelemetry.

(* ===================================================================== *)
(** * ChartsColumn.tsx: the series that are plotted *)
(* ===================================================================== *)

Module ChartKeys.

(** A row of [windowed]: an object, by its own fields. *)
Abbreviation Row := (list (string * Json.t)).

(** [typeof r[name] === "number"], with the number. *)
Definition top (r : Row) (name : string) : option float :=
  match Json.lookup r name with
  | Some (Json.Num n) => Some n
  | _ => None
  end.

(** [typeof r.data?.[name] === "number"], with the number. *)
Definition nested (r : Row) (name : string) : option float :=
  match Json.lookup r "data" with
  | None | Some Json.Null => None
  | Some d => Json.numberAt d name
  end.

(** The callback of [windowed.some]. *)
Definition existsNumeric (windowed : list Row) (name : string) : bool :=
  existsb (λ r, bool_decide (is_Some (top r name))
                || bool_decide (is_Some (nested r name))) windowed.

(** [set.add(name)] on a [Set] listed in insertion order. *)
Definition setAdd (name : string) (set : list string) : list string :=
  if bool_decide (name ∈ set) then set else set ++ [name].

(** The loop of [pickExistingNumericKeys] from the candidates left. *)
Fixpoint pickLoop (windowed : list Row) (maxN : nat)
    (candidates : list string) (set : list string) : list string :=
  match candidates with
  | [] => set
  | name :: rest =>
      let set' := if existsNumeric windowed name then setAdd name set else set in
      if maxN <=? length set' then set' else pickLoop windowed maxN rest set'
  end.

Definition pickExistingNumericKeys (windowed : list Row)
    (candidates : list string) (maxN : nat) : list string :=
  pickLoop windowed maxN candidates [].

(** A point of the data set built for key [k]; [None] is [null]. *)
Definition point (k : string) (r : Row) : option float :=
  match top r k with
  | Some n => Some (Charts.normalizeValue k n)
  | None =>
      match nested r k with
      | Some n => Some (Charts.normalizeValue k n)
      | None => None
      end
  end.

(** The [data] of the data set that [buildDatasets] builds for key [k]. *)
Definition buildData (windowed : list Row) (k : string) : list (option float) :=
  point k <$> windowed.

(** [buildDatasets]: the label and the data of each data set. *)
Definition buildDatasets (windowed : list Row) (keys : list string)
  : list (string * list (option float)) :=
  (λ k, (k, buildData windowed k)) <$> keys.

(** The number of keys each of the four charts asks for. *)
Definition chartLimit (s : Charts.Series) : nat :=
  match s with
  | Charts.distance => 3
  | Charts.current => 4
  | Charts.voltage => 4
  | Charts.temperature => 2
  end.

(** The data sets of [distanceData], [currentData], [voltageData] and
    [temperatureData]; the column is mounted without [aliases], so the
    candidates are the default ones. *)
Definition chartDatasets (windowed : list Row) (s : Charts.Series)
  : list (string * list (option float)) :=
  buildDatasets windowed
    (pickExistingNumericKeys windowed (Charts.defaultAliases s) (chartLimit s)).

End ChartKeys.

(* ===================================================================== *)
(** * Grid20x20.tsx: display coordinates and reset *)
(* ===================================================================== *)

Module GridView.

Definition ORIGIN_ROW : nat := Grid.row Grid.initialPose.
Definition ORIGIN_COL : nat := Grid.col Grid.initialPose.

(** [toDisplayCoords]: the differences of indices are integers. *)
Definition toDisplayCoords (pose : Grid.RoverPose) : Z * Z :=
  (Z.of_nat (Grid.col pose) - Z.of_nat ORIGIN_COL,
   Z.of_nat ORIGIN_ROW - Z.of_nat (Grid.row pose))%Z.

(** [handleResetClick]: the new state, and whether [onReset] is called. *)
Definition handleResetClick (onReset : bool) (st : Grid.State)
  : Grid.State * bool :=
  ({| Grid.st_grid := Grid.createEmptyGrid;
      Grid.st_pose := Grid.initialPose;
      Grid.st_poseRef := Grid.initialPose |}, onReset).

End GridView.

(* ===================================================================== *)
(** * App.tsx and SerialFooter.tsx: what is shown of the console *)
(* ===================================================================== *)

Module AppView.

(** The memo [latestImageDataUrl]: an empty payload is falsy. *)
Definition latestImageDataUrl (consoleLines : list Feed.ConsoleLine)
  : option string :=
  match App.extractLastImageFromConsole consoleLines with
  | Some b64 =>
      if String.eqb b64 "" then None
      else Some ("data:image/jpeg;base64," +:+ b64)
  | None => None
  end.

(** The memo [consoleTextLines], handed to [SerialFooter]. *)
Definition consoleTextLines (consoleLines : list Feed.ConsoleLine)
  : list string :=
  App.getLineText <$> consoleLines.

End AppView.

Module SerialFooter.

Definition SHOWN : nat := 800.

(** [lines.slice(-800)]: the elements from index [max (length - 800) 0]
    on. *)
Definition shownLines (lines : list string) : list string :=
  drop (length lines - SHOWN) lines.

End SerialFooter.

(* ===================================================================== *)
(** * Vocabulary of the statements *)
(* ===================================================================== *)

(** ** Serial lines, the console buffer and the two image scanners *)

Section FeedVocabulary.

Import Feed.

(** A line that is neither marker. *)
Definition plain (m : float * string) : Prop :=
  m.2 ≠ B64_IMAGE_START ∧ m.2 ≠ B64_IMAGE_END.

Definition mkLine (m : float * string) : ConsoleLine :=
  {| ts := m.1; text := m.2 |}.

(** The last [n] elements of a list. *)
Definition keep_last {A} (n : nat) (xs : list A) : list A :=
  drop (length xs - n) xs.

(** A line that both paths read alike: it trims to a marker only when it
    is that marker exactly. *)
Definition exactMarkers (m : float * string) : Prop :=
  (Js.trim m.2 = B64_IMAGE_START → m.2 = B64_IMAGE_START) ∧
  (Js.trim m.2 = B64_IMAGE_END → m.2 = B64_IMAGE_END).

(** The two scanners are in step: the recomputation holds the chunks of
    the handler that are not empty. *)
Definition in_step (f : State) (a : App.Scan) : Prop :=
  App.capturing a = pending (imageCapture f) ∧
  (pending (imageCapture f) = true →
   App.buffer a = filter (λ s, s ≠ "") (chunks (imageCapture f))).

(** They hold the same image. *)
Definition same_image (f : State) (a : App.Scan) : Prop :=
  lastImageDataUrl f = dataUrl <$> App.lastImage a.

End FeedVocabulary.

(** ** Rover digits and the rows of the matrix *)

Section GridVocabulary.

Import Grid.

(** The characters '2' to '5'. *)
Definition isRoverDigit (ch : ascii) : bool :=
  match ch with
  | "2" | "3" | "4" | "5" => true
  | _ => false
  end%char.

(** The direction a rover digit stands for: 2 N, 3 E, 4 W, 5 S. *)
Definition digitDirection (ch : ascii) : Direction :=
  match ch with
  | "3" => DirE
  | "4" => DirW
  | "5" => DirS
  | _ => DirN
  end%char.

(** The cell a character decodes to. *)
Definition cellOf (ch : ascii) : Cell :=
  {| visited := false; obstacle := Ascii.eqb ch "1" |}.

(** The display row a token decodes to. *)
Definition decodeRow (tok : string) : list Cell :=
  if String.eqb (Js.trim tok) "" then emptyRow
  else cellOf <$> Js.chars (Js.trim tok).

(** The poses set while one row is read, in the order they are set. *)
Fixpoint rowHits (visualRow : nat) (chs : list ascii) (c : nat)
  : list RoverPose :=
  match chs with
  | [] => []
  | ch :: rest =>
      (if isRoverDigit ch
       then [{| row := visualRow; col := c; dir := digitDirection ch |}]
       else [])
      ++ rowHits visualRow rest (S c)
  end.

Definition numRowsOf (toks : list string) : nat :=
  Nat.min (length toks) GRID_ROWS.

(** The token shown on display row [v]. *)
Definition sourceToken (toks : list string) (v : nat) : string :=
  default "" (toks !! (numRowsOf toks - 1 - v)).

(** The poses set by the rows [0 .. k-1], in scan order. *)
Definition hitsUpTo (toks : list string) (k : nat) : list RoverPose :=
  v ← seq 0 k; rowHits v (Js.chars (Js.trim (sourceToken toks v))) 0.

(** A rover digit stands at display row [row p], column [col p] of the
    decoded tokens, and [dir p] is its direction. *)
Definition rover_at (toks : list string) (p : RoverPose) : Prop :=
  row p < numRowsOf toks ∧
  ∃ ch, Js.chars (Js.trim (sourceToken toks (row p))) !! col p = Some ch ∧
        isRoverDigit ch = true ∧ dir p = digitDirection ch.

(** [q] is read before [p]: on a display row above, or on the same row to
    the left. *)
Definition scan_lt (q p : RoverPose) : Prop :=
  row q < row p ∨ (row q = row p ∧ col q < col p).

(** The specification's reading of the scan: tokens in storage order,
    token 0 first, each digit reported at the display row it is shown on;
    the last one wins. *)
Definition lastInStorageOrder (toks : list string) : option RoverPose :=
  last (i ← seq 0 (numRowsOf toks);
        rowHits (numRowsOf toks - 1 - i)
                (Js.chars (Js.trim (default "" (toks !! i)))) 0).

End GridVocabulary.

(** ** Aliases and scaling *)

Section TelemetryVocabulary.

Import Telemetry.

(** The first alias, in table order, that satisfies [P]. *)
Fixpoint firstAlias (P : string → bool) (names : list string) : option string :=
  match names with
  | [] => None
  | n :: rest => if P n then Some n else firstAlias P rest
  end.

(** The last key, in [Object.keys] order, that reads as [x] under [f]. *)
Definition lastKey (f : string → string) (obj : Obj) (x : string)
  : option string :=
  last (filter (λ k, f k = x) (keys obj)).

(** Alias [n] reads as some key of [obj] under [f]. *)
Definition matchesUnder (f : string → string) (obj : Obj) (n : string) : bool :=
  bool_decide (f n ∈ f <$> keys obj).

(** The categories [TelemetryColumn] formats with [fmtScaled100]. *)
Definition scaled100 (c : Category) : bool :=
  match c with
  | temp1 | temp2 | hum1 | hum2 => true
  | _ => false
  end.

(** The voltage, current and power categories of [TelemetryColumn]. *)
Definition milliUnit (c : Category) : bool :=
  match c with
  | vEsp | iEsp | pEsp | vM1 | iM1 | pM1 | vM2 | iM2 | pM2 => true
  | _ => false
  end.

(** The number a rendered line shows. *)
Definition shown (r : Rendered) : option float :=
  match r with
  | Dash => None
  | Fixed n _ _ => Some n
  end.

(** A [numeral] reader for records that hold no string value. *)
Definition noNumeral : string → option float := λ _, None.

(** The electrical quantity of a voltage, current or power category. *)
Inductive Quantity := Voltage | Current | Power.

Definition quantityOf (c : Category) : option Quantity :=
  match c with
  | vEsp | vM1 | vM2 => Some Voltage
  | iEsp | iM1 | iM2 => Some Current
  | pEsp | pM1 | pM2 => Some Power
  | _ => None
  end.

(** The milli-unit of a quantity. *)
Definition milliName (q : Quantity) : string :=
  match q with
  | Voltage => "mV"
  | Current => "mA"
  | Power => "mW"
  end.

(** The unit of a temperature or humidity category. *)
Definition centiName (c : Category) : string :=
  match c with
  | hum1 | hum2 => "%"
  | _ => degC
  end.

End TelemetryVocabulary.

(** ** Plotted values *)

(** The number a row holds under a key: its own, else that of its
    [data]. *)
Definition rawValue (k : string) (r : ChartKeys.Row) : option float :=
  match ChartKeys.top r k with
  | Some n => Some n
  | None => ChartKeys.nested r k
  end.

(** The scaling of a series: temperatures by 100, currents and voltages
    by 1000, distances not at all. *)
Definition plottedScale (s : Charts.Series) (raw : float) : float :=
  match s with
  | Charts.temperature => (raw / 100)%float
  | Charts.current | Charts.voltage => (raw / 1000)%float
  | Charts.distance => raw
  end.

(** ** The categories of the telemetry column *)

#[global] Instance category_eq_dec : EqDecision Telemetry.Category.
Proof. solve_decision. Defined.

Definition allCategories : list Telemetry.Category :=
  [Telemetry.rssi; Telemetry.avgRssi;
   Telemetry.temp1; Telemetry.hum1; Telemetry.temp2; Telemetry.hum2;
   Telemetry.vEsp; Telemetry.iEsp; Telemetry.pEsp;
   Telemetry.vM1; Telemetry.iM1; Telemetry.pM1;
   Telemetry.vM2; Telemetry.iM2; Telemetry.pM2;
   Telemetry.accX; Telemetry.accY; Telemetry.accZ;
   Telemetry.gyroX; Telemetry.gyroY; Telemetry.gyroZ;
   Telemetry.dist1; Telemetry.dist2; Telemetry.dist3].

(** ** The frames of the message handler *)

(** The row a telemetry frame carries: its [row], else its [data], when
    that is truthy. *)
Definition carriedRow (parsed : option Json.t) : option Json.t :=
  match parsed with
  | Some (Json.Obj fields) =>
      match Json.lookup fields "type" with
      | Some (Json.Str type) =>
          if String.eqb type "telemetry" then
            match Json.coalesce (Json.lookup fields "row")
                                (Json.lookup fields "data") with
            | Some row => if Json.truthy row then Some row else None
            | None => None
            end
          else None
      | _ => None
      end
  | _ => None
  end.

(** The text of the [line] of a frame: the string itself, the empty
    string when there is none, the conversion of any other value; [None]
    when that conversion throws. *)
Definition lineText (toText : Json.t → option string)
    (fields : list (string * Json.t)) : option string :=
  match Json.lookup fields "line" with
  | Some (Json.Str s) => Some s
  | None | Some Json.Null => Some ""
  | Some v => toText v
  end.

(** The time stamp and text a [serial_in] frame hands to the serial
    branch; [None] for a frame of another kind and for a [serial_in]
    frame whose line has no text. *)
Definition serialOf (toText : Json.t → option string)
    (e : float * option Json.t) : option (float * string) :=
  match e.2 with
  | Some (Json.Obj fields) =>
      match Json.lookup fields "type" with
      | Some (Json.Str type) =>
          if String.eqb type "serial_in" then
            text ← lineText toText fields;
            Some (match Json.lookup fields "ts" with
                  | Some (Json.Num n) => (n * 1000)%float
                  | _ => e.1
                  end, text)
          else None
      | _ => None
      end
  | _ => None
  end.

(** ** Invariants of the scanners and buffers *)

(** The recomputation never holds an empty chunk or an empty image. *)
Definition scan_nonempty (a : App.Scan) : Prop :=
  Forall (λ s, s ≠ "") (App.buffer a) ∧
  ∀ p, App.lastImage a = Some p → p ≠ "".

(** The records are numbered downwards from [seqRef], newest first, and
    fit the buffer. *)
Definition numbered (maxBuffer : nat) (st : UseTelemetry.State) : Prop :=
  (∀ i r, UseTelemetry.records st !! i = Some r →
          UseTelemetry.seq r + i = UseTelemetry.seqRef st) ∧
  length (UseTelemetry.records st) ≤ maxBuffer ∧
  length (UseTelemetry.records st) ≤ UseTelemetry.seqRef st.

(** Every record of [later] is a record of [earlier] or was stored after
    it, under a larger number. *)
Definition continues (earlier later : UseTelemetry.State) : Prop :=
  UseTelemetry.seqRef earlier ≤ UseTelemetry.seqRef later ∧
  ∀ r, r ∈ UseTelemetry.records later →
       r ∈ UseTelemetry.records earlier ∨
       UseTelemetry.seqRef earlier < UseTelemetry.seq r.


(** The state after a record with payload [p] and time stamp [ts] has
    been stored. *)
Definition stored (maxBuffer : nat) (ts : string) (p : list (string * Json.t))
    (st : UseTelemetry.State) : UseTelemetry.State :=
  {| UseTelemetry.records :=
       take maxBuffer
         ({| UseTelemetry.ts := ts; UseTelemetry.data := p;
             UseTelemetry.seq := UseTelemetry.seqRef st + 1 |}
          :: UseTelemetry.records st);
     UseTelemetry.seqRef := UseTelemetry.seqRef st + 1 |}.

(** ** Sample states *)

(** A pending capture holding one chunk, with a matrix line stored. *)
Definition capturing_state : Feed.State :=
  {| Feed.consoleLines := [];
     Feed.imageCapture := {| Feed.pending := true; Feed.chunks := ["aGVs"] |};
     Feed.lastImageDataUrl := None;
     Feed.lastMatrixLine := Some "RECV_ROVER_x,M,0000000000,0002000000" |}.


(** A component state whose pose is not the initial one. *)
Definition moved_state : Grid.State :=
  {| Grid.st_grid := Grid.createEmptyGrid;
     Grid.st_pose := {| Grid.row := 4; Grid.col := 7; Grid.dir := Grid.DirE |};
     Grid.st_poseRef := {| Grid.row := 4; Grid.col := 7; Grid.dir := Grid.DirE |} |}.

(* ===================================================================== *)
(** * Properties *)
(* ===================================================================== *)

Lemma string_app_cons (c : ascii) (a b : string) :
  String c a +:+ b = String c (a +:+ b).
Proof. reflexivity. Qed.

(** ** The serial line handler *)

Section FeedFacts.

Import Feed.

Lemma run_cons (ts : float) (text : string) (rest : list (float * string))
    (st : State) :
  run ((ts, text) :: rest) st =
  ((run rest (handleSerialIn ts text st).1).1,
   option_list (handleSerialIn ts text st).2
   ++ (run rest (handleSerialIn ts text st).1).2).
Proof.
  cbn [run]. destruct (handleSerialIn ts text st) as [st1 e]. cbn [fst snd].
  by destruct (run rest st1).
Qed.

Lemma handle_end (ts : float) (st : State) :
  handleSerialIn ts B64_IMAGE_END st =
  let emitted :=
    if pending (imageCapture st) && (0 <? length (chunks (imageCapture st)))
    then Some (dataUrl (Js.join (chunks (imageCapture st))))
    else None in
  ({| consoleLines := pushConsole (consoleLines st)
                        {| ts := ts; text := B64_IMAGE_END |};
      imageCapture := {| pending := false; chunks := [] |};
      lastImageDataUrl :=
        match emitted with
        | Some url => Some url
        | None => lastImageDataUrl st
        end;
      lastMatrixLine := lastMatrixLine st |}, emitted).
Proof. reflexivity. Qed.

Lemma run_app (a b : list (float * string)) (st : State) :
  run (a ++ b) st =
  ((run b (run a st).1).1, (run a st).2 ++ (run b (run a st).1).2).
Proof.
  revert st. induction a as [|[ts text] a IH]; intros st; simpl.
  - by destruct (run b st).
  - destruct (handleSerialIn ts text st) as [st1 e]. rewrite IH.
    destruct (run a st1) as [st2 es]; simpl.
    by rewrite app_assoc.
Qed.

Lemma handle_start (ts : float) (st : State) :
  handleSerialIn ts B64_IMAGE_START st =
  ({| consoleLines := pushConsole (consoleLines st)
                        {| ts := ts; text := B64_IMAGE_START |};
      imageCapture := {| pending := true; chunks := [] |};
      lastImageDataUrl := lastImageDataUrl st;
      lastMatrixLine := lastMatrixLine st |}, None).
Proof. reflexivity. Qed.

Lemma handle_plain_capturing (ts : float) (text : string) (st : State) :
  pending (imageCapture st) = true →
  text ≠ B64_IMAGE_START → text ≠ B64_IMAGE_END →
  handleSerialIn ts text st =
  ({| consoleLines := pushConsole (consoleLines st) {| ts := ts; text := text |};
      imageCapture := {| pending := true;
                         chunks := chunks (imageCapture st) ++ [Js.trim text] |};
      lastImageDataUrl := lastImageDataUrl st;
      lastMatrixLine := lastMatrixLine st |}, None).
Proof.
  intros Hp Hs He. unfold handleSerialIn.
  destruct (String.eqb_spec text B64_IMAGE_START) as [|_]; [done|].
  destruct (String.eqb_spec text B64_IMAGE_END) as [|_]; [done|].
  by rewrite Hp.
Qed.

(** While capturing, plain lines only grow the chunk list. *)
Lemma run_plain_capturing (body : list (float * string)) (st : State) :
  pending (imageCapture st) = true →
  Forall plain body →
  (run body st).2 = [] ∧
  imageCapture (run body st).1 =
    {| pending := true;
       chunks := chunks (imageCapture st) ++ (Js.trim ∘ snd <$> body) |} ∧
  lastImageDataUrl (run body st).1 = lastImageDataUrl st ∧
  lastMatrixLine (run body st).1 = lastMatrixLine st.
Proof.
  revert st. induction body as [|[ts text] body IH]; intros st Hp Hall.
  - simpl. rewrite app_nil_r. by destruct (imageCapture st) as [? ?]; simplify_eq/=.
  - apply Forall_cons in Hall as [[Hs He] Hall]. simpl in Hs, He.
    simpl. rewrite handle_plain_capturing by done.
    match goal with |- context [run body ?s] =>
      destruct (IH s eq_refl Hall) as (E1 & E2 & E3 & E4);
      destruct (run body s) as [st2 es] end.
    simpl in *. subst es. rewrite E2, E3, E4.
    by rewrite <- app_assoc.
Qed.

(** What a message emits and leaves in the capture depends on the capture
    alone. *)
Lemma handle_capture_only (ts1 ts2 : float) (text : string) (s1 s2 : State) :
  imageCapture s1 = imageCapture s2 →
  (handleSerialIn ts1 text s1).2 = (handleSerialIn ts2 text s2).2 ∧
  imageCapture (handleSerialIn ts1 text s1).1
  = imageCapture (handleSerialIn ts2 text s2).1.
Proof.
  intros E. unfold handleSerialIn. rewrite E.
  repeat case_match; done.
Qed.

Lemma run_capture_only (msgs : list (float * string)) (s1 s2 : State) :
  imageCapture s1 = imageCapture s2 →
  (run msgs s1).2 = (run msgs s2).2 ∧
  imageCapture (run msgs s1).1 = imageCapture (run msgs s2).1.
Proof.
  revert s1 s2. induction msgs as [|[ts text] msgs IH]; intros s1 s2 E; [done|].
  simpl. destruct (handle_capture_only ts ts text s1 s2 E) as [E1 E2].
  destruct (handleSerialIn ts text s1) as [a1 e1],
           (handleSerialIn ts text s2) as [a2 e2]; simpl in *.
  destruct (IH a1 a2 E2) as [E3 E4].
  destruct (run msgs a1), (run msgs a2); simpl in *. by subst.
Qed.

(** The stored image is the one set last. *)
Lemma run_last_image (msgs : list (float * string)) (st : State) (u : string) :
  last (run msgs st).2 = Some u → lastImageDataUrl (run msgs st).1 = Some u.
Proof.
  assert (Hgen : ∀ msgs st,
    lastImageDataUrl (run msgs st).1
    = from_option Some (lastImageDataUrl st) (last (run msgs st).2)).
  { clear. intros msgs. induction msgs as [|[ts text] msgs IH]; intros st; [done|].
    rewrite run_cons. cbn [fst snd]. rewrite IH, last_app.
    destruct (last (run msgs (handleSerialIn ts text st).1).2); [done|]. simpl.
    unfold handleSerialIn. repeat case_match; done. }
  intros H. by rewrite Hgen, H.
Qed.

End FeedFacts.

(** C5. An image is set exactly when [B64_IMAGE_END] arrives while a
    capture is pending with at least one chunk; its payload joins the
    chunks; a START, plain lines, END block emits the join of the trimmed
    lines in receipt order; END always clears the capture and emits nothing
    when no chunk was accumulated. *)
Theorem C5_image_emitted_on_end :
  (∀ ts text st url,
     (Feed.handleSerialIn ts text st).2 = Some url ↔
     text = Feed.B64_IMAGE_END ∧
     Feed.pending (Feed.imageCapture st) = true ∧
     Feed.chunks (Feed.imageCapture st) ≠ [] ∧
     url = Feed.dataUrl (Js.join (Feed.chunks (Feed.imageCapture st)))) ∧
  (∀ ts text st,
     Feed.lastImageDataUrl (Feed.handleSerialIn ts text st).1 =
     match (Feed.handleSerialIn ts text st).2 with
     | Some url => Some url
     | None => Feed.lastImageDataUrl st
     end) ∧
  (∀ st t0 body t1,
     Forall plain body → body ≠ [] →
     let r := Feed.run ((t0, Feed.B64_IMAGE_START) :: body
                        ++ [(t1, Feed.B64_IMAGE_END)]) st in
     r.2 = [Feed.dataUrl (Js.join (Js.trim ∘ snd <$> body))] ∧
     Feed.lastImageDataUrl r.1
       = Some (Feed.dataUrl (Js.join (Js.trim ∘ snd <$> body))) ∧
     Feed.imageCapture r.1 = {| Feed.pending := false; Feed.chunks := [] |}) ∧
  (∀ st t0 t1 t2 t3,
     (Feed.run [(t0, "B64_IMAGE_START"); (t1, "aGVs"); (t2, "bG8=");
                (t3, "B64_IMAGE_END")] st).2
     = ["data:image/jpeg;base64,aGVsbG8="]) ∧
  (∀ ts st,
     Feed.imageCapture (Feed.handleSerialIn ts Feed.B64_IMAGE_END st).1
     = {| Feed.pending := false; Feed.chunks := [] |}) ∧
  (∀ ts st,
     Feed.chunks (Feed.imageCapture st) = [] →
     (Feed.handleSerialIn ts Feed.B64_IMAGE_END st).2 = None ∧
     Feed.lastImageDataUrl (Feed.handleSerialIn ts Feed.B64_IMAGE_END st).1
     = Feed.lastImageDataUrl st).
Proof.
  assert (Hblock : ∀ st t0 body t1,
     Forall plain body → body ≠ [] →
     let r := Feed.run ((t0, Feed.B64_IMAGE_START) :: body
                        ++ [(t1, Feed.B64_IMAGE_END)]) st in
     r.2 = [Feed.dataUrl (Js.join (Js.trim ∘ snd <$> body))] ∧
     Feed.lastImageDataUrl r.1
       = Some (Feed.dataUrl (Js.join (Js.trim ∘ snd <$> body))) ∧
     Feed.imageCapture r.1 = {| Feed.pending := false; Feed.chunks := [] |}).
  { intros st t0 body t1 Hall Hne r. subst r.
    rewrite run_cons, run_app, handle_start. cbn [fst snd option_list app].
    match goal with |- context [Feed.run body ?s] => set (s0 := s) end.
    destruct (run_plain_capturing body s0) as (E1 & E2 & E3 & E4); [done..|].
    simpl in E2. set (s1 := (Feed.run body s0).1) in *.
    rewrite E1, run_cons, handle_end. cbn zeta. rewrite E2.
    cbn [Feed.pending Feed.chunks andb fst snd Feed.run app
         Feed.lastImageDataUrl Feed.imageCapture].
    destruct body as [|m body]; [done|]. simpl. done. }
  split_and!.
  - intros ts text st url. split.
    + unfold Feed.handleSerialIn.
      destruct (String.eqb_spec text Feed.B64_IMAGE_START) as [|_]; [done|].
      destruct (String.eqb_spec text Feed.B64_IMAGE_END) as [->|_].
      * destruct (Feed.pending _) eqn:Hp; simpl; [|done].
        destruct (Feed.chunks _) eqn:Hc; simpl; [done|].
        by intros [= <-].
      * repeat case_match; done.
    + intros (-> & Hp & Hc & ->). rewrite handle_end. cbn zeta. rewrite Hp.
      destruct (Feed.chunks _); [done|]. reflexivity.
  - intros ts text st. unfold Feed.handleSerialIn. repeat case_match; done.
  - exact Hblock.
  - intros st t0 t1 t2 t3.
    apply (Hblock st t0 [(t1, "aGVs"); (t2, "bG8=")] t3).
    + repeat constructor; done.
    + done.
  - intros ts st. reflexivity.
  - intros ts st Hc. rewrite handle_end. cbn zeta. rewrite Hc.
    by rewrite andb_false_r.
Qed.

(** C6. A [B64_IMAGE_START] always empties the chunk list and emits
    nothing, so a partial capture that a second START interrupts is lost:
    the images set from then on do not depend on the chunks held before,
    and the whole stream sets exactly the images of the stream with the
    interrupted capture removed. *)
Theorem C6_start_discards_partial_capture :
  (∀ ts st,
     Feed.imageCapture (Feed.handleSerialIn ts Feed.B64_IMAGE_START st).1
     = {| Feed.pending := true; Feed.chunks := [] |} ∧
     (Feed.handleSerialIn ts Feed.B64_IMAGE_START st).2 = None ∧
     Feed.lastImageDataUrl (Feed.handleSerialIn ts Feed.B64_IMAGE_START st).1
     = Feed.lastImageDataUrl st) ∧
  (∀ ts rest console url matrix partial partial',
     (Feed.run ((ts, Feed.B64_IMAGE_START) :: rest)
        {| Feed.consoleLines := console;
           Feed.imageCapture := {| Feed.pending := true; Feed.chunks := partial |};
           Feed.lastImageDataUrl := url; Feed.lastMatrixLine := matrix |})
     = (Feed.run ((ts, Feed.B64_IMAGE_START) :: rest)
        {| Feed.consoleLines := console;
           Feed.imageCapture := {| Feed.pending := true; Feed.chunks := partial' |};
           Feed.lastImageDataUrl := url; Feed.lastMatrixLine := matrix |})) ∧
  (∀ st t0 body t1 rest,
     Forall plain body →
     (Feed.run ((t0, Feed.B64_IMAGE_START) :: body
                ++ (t1, Feed.B64_IMAGE_START) :: rest) st).2
     = (Feed.run ((t1, Feed.B64_IMAGE_START) :: rest) st).2).
Proof.
  split_and!.
  - intros ts st. by rewrite handle_start.
  - intros ts rest console url matrix partial partial'.
    by rewrite !run_cons, !handle_start.
  - intros st t0 body t1 rest Hall.
    rewrite run_cons, run_app, handle_start. cbn [fst snd option_list app].
    match goal with |- context [Feed.run body ?s] => set (s0 := s) end.
    destruct (run_plain_capturing body s0) as (E1 & _); [done..|].
    rewrite E1. cbn [app].
    rewrite !(run_cons t1), !handle_start. cbn [fst snd]. simpl option_list.
    cbn [app].
    match goal with |- (Feed.run rest ?a).2 = (Feed.run rest ?b).2 =>
      apply (run_capture_only rest a b) end.
    reflexivity.
Qed.

(** C7. While a capture is pending, a line that is neither marker is
    appended to the chunks after trimming and nothing else is decoded from
    it: the stored matrix line and image are kept, no image is set, and
    the grid component is handed the same matrix line as before. *)
Theorem C7_capture_shadows_line_rules (ts : float) (text : string)
    (st : Feed.State) :
  Feed.pending (Feed.imageCapture st) = true →
  text ≠ Feed.B64_IMAGE_START →
  text ≠ Feed.B64_IMAGE_END →
  Feed.imageCapture (Feed.handleSerialIn ts text st).1
  = {| Feed.pending := true;
       Feed.chunks := Feed.chunks (Feed.imageCapture st) ++ [Js.trim text] |} ∧
  Feed.lastMatrixLine (Feed.handleSerialIn ts text st).1 = Feed.lastMatrixLine st ∧
  Feed.lastImageDataUrl (Feed.handleSerialIn ts text st).1
  = Feed.lastImageDataUrl st ∧
  (Feed.handleSerialIn ts text st).2 = None ∧
  (∀ g, Grid.matrixLineEffect (Feed.lastMatrixLine (Feed.handleSerialIn ts text st).1) g
        = Grid.matrixLineEffect (Feed.lastMatrixLine st) g).
Proof.
  intros Hp Hs He. by rewrite handle_plain_capturing.
Qed.

Lemma C7_capture_shadows_line_rules_witness :
  Js.startsWith "RECV_ROVER_" "RECV_ROVER_y,M,2000000000 " = true ∧
  Js.includes ",M," "RECV_ROVER_y,M,2000000000 " = true ∧
  Feed.imageCapture
    (Feed.handleSerialIn 0%float "RECV_ROVER_y,M,2000000000 " capturing_state).1
  = {| Feed.pending := true;
       Feed.chunks := ["aGVs"; "RECV_ROVER_y,M,2000000000"] |} ∧
  Feed.lastMatrixLine
    (Feed.handleSerialIn 0%float "RECV_ROVER_y,M,2000000000 " capturing_state).1
  = Some "RECV_ROVER_x,M,0000000000,0002000000".
Proof.
  split; [reflexivity|]. split; [reflexivity|].
  destruct (C7_capture_shadows_line_rules 0%float
              "RECV_ROVER_y,M,2000000000 " capturing_state)
    as (H1 & H2 & _); [reflexivity | discriminate | discriminate |].
  split; [exact H1 | exact H2].
Defined.

(** ** The console buffer and the image recomputed from it *)

Section ConsoleFacts.

Import Feed.

Lemma pushConsole_keep_last (prev : list ConsoleLine) (l : ConsoleLine) :
  pushConsole prev l = keep_last CONSOLE_CAP (prev ++ [l]).
Proof.
  unfold pushConsole, keep_last.
  destruct (Nat.ltb_spec CONSOLE_CAP (length (prev ++ [l]))) as [H|H]; [done|].
  by replace (length (prev ++ [l]) - CONSOLE_CAP) with 0 by lia.
Qed.

Lemma keep_last_app_keep {A} (n : nat) (xs ys : list A) :
  keep_last n (keep_last n xs ++ ys) = keep_last n (xs ++ ys).
Proof.
  unfold keep_last. rewrite !length_app, length_drop, !drop_app, drop_drop.
  rewrite length_drop. f_equal; f_equal; lia.
Qed.

Lemma foldl_pushConsole (xs ls : list ConsoleLine) :
  foldl pushConsole (keep_last CONSOLE_CAP xs) ls
  = keep_last CONSOLE_CAP (xs ++ ls).
Proof.
  revert xs. induction ls as [|l ls IH]; intros xs; simpl.
  - by rewrite app_nil_r.
  - rewrite pushConsole_keep_last, keep_last_app_keep, IH.
    by rewrite <- app_assoc.
Qed.

Lemma handle_console (ts : float) (text : string) (st : State) :
  consoleLines (handleSerialIn ts text st).1
  = pushConsole (consoleLines st) (mkLine (ts, text)).
Proof. unfold handleSerialIn. repeat case_match; done. Qed.

Lemma run_console (msgs : list (float * string)) (st : State) :
  consoleLines (run msgs st).1 = foldl pushConsole (consoleLines st) (mkLine <$> msgs).
Proof.
  revert st. induction msgs as [|[ts text] msgs IH]; intros st; [done|].
  rewrite run_cons. cbn [fst]. by rewrite IH, handle_console.
Qed.

(** The buffer holds the last [CONSOLE_CAP] lines of the stream. *)
Lemma console_is_suffix (msgs : list (float * string)) :
  consoleLines (run msgs initialState).1 = keep_last CONSOLE_CAP (mkLine <$> msgs).
Proof.
  rewrite run_console.
  change (consoleLines initialState) with (keep_last CONSOLE_CAP (@nil ConsoleLine)).
  by rewrite foldl_pushConsole.
Qed.

Lemma keep_last_app_short {A} (n : nat) (xs ys : list A) :
  length ys ≤ n → ∃ a, keep_last n (xs ++ ys) = a ++ ys.
Proof.
  intros H. unfold keep_last. rewrite length_app, drop_app.
  replace (length xs + length ys - n - length xs) with 0 by lia.
  by eexists.
Qed.

Lemma string_app_nil_r (s : string) : s +:+ "" = s.
Proof. induction s as [|c s IH]; [done|]. by rewrite string_app_cons, IH. Qed.

Lemma join_cons (x : string) (l : list string) :
  Js.join (x :: l) = x +:+ Js.join l.
Proof.
  unfold Js.join. destruct l as [|y l]; simpl.
  - by rewrite string_app_nil_r.
  - done.
Qed.

(** Empty chunks do not show in the payload. *)
Lemma join_filter_nonempty (l : list string) :
  Js.join (filter (λ s, s ≠ "") l) = Js.join l.
Proof.
  induction l as [|x l IH]; [done|].
  rewrite filter_cons, (join_cons x l). destruct (decide (x ≠ "")) as [|E].
  - by rewrite join_cons, IH.
  - apply dec_stable in E as ->. by rewrite IH.
Qed.

Lemma dataUrl_inj (p q : string) : dataUrl p = dataUrl q → p = q.
Proof. unfold dataUrl. apply String.app_inj. Qed.

Lemma step_in_step (m : float * string) (f : State) (a : App.Scan) :
  exactMarkers m → in_step f a →
  let f' := (handleSerialIn m.1 m.2 f).1 in
  let a' := App.scanLine a (mkLine m) in
  in_step f' a' ∧
  match (handleSerialIn m.1 m.2 f).2 with
  | Some u => u ≠ dataUrl "" → same_image f' a'
  | None => lastImageDataUrl f' = lastImageDataUrl f ∧
            App.lastImage a' = App.lastImage a
  end.
Proof.
  destruct m as [ts text]. intros (Hs & He) [Hc Hbuf]. simpl in *.
  unfold App.scanLine, App.getLineText, mkLine. simpl.
  destruct (String.eqb_spec (Js.trim text) "B64_IMAGE_START") as [E|NE].
  { rewrite (Hs E), handle_start. by repeat split. }
  destruct (String.eqb_spec (Js.trim text) "B64_IMAGE_END") as [E|NE'].
  { rewrite (He E), handle_end. cbn zeta. rewrite Hc.
    change (String.eqb (Js.trim B64_IMAGE_END) "") with false. cbn iota.
    unfold in_step, same_image. simpl.
    destruct (pending (imageCapture f)) eqn:Hp; simpl; [|done].
    rewrite (Hbuf eq_refl).
    destruct (chunks (imageCapture f)) as [|x l] eqn:Hch; simpl; [done|].
    split; [done|]. intros Hne.
    destruct (filter (λ s, s ≠ "") (x :: l)) as [|y l'] eqn:Hf.
    - destruct Hne. by rewrite <- join_filter_nonempty, Hf.
    - simpl. by rewrite <- Hf, join_filter_nonempty. }
  assert (text ≠ B64_IMAGE_START) by (intros ->; by apply NE).
  assert (text ≠ B64_IMAGE_END) by (intros ->; by apply NE').
  unfold in_step. rewrite Hc.
  destruct (pending (imageCapture f)) eqn:Hp.
  - rewrite handle_plain_capturing by done. simpl.
    destruct (String.eqb_spec (Js.trim text) "") as [E|NE0].
    + rewrite E. split; [|done]. split; [done|]. intros _.
      rewrite filter_app, filter_cons, filter_nil.
      destruct (decide ("" ≠ "")); [done|]. by rewrite app_nil_r, (Hbuf eq_refl).
    + split; [|done]. split; [done|]. intros _. simpl.
      rewrite filter_app, filter_cons, filter_nil.
      destruct (decide (Js.trim text ≠ "")); [|done]. by rewrite (Hbuf eq_refl).
  - assert (Hf : pending (imageCapture (handleSerialIn ts text f).1) = false ∧
                 (handleSerialIn ts text f).2 = None ∧
                 lastImageDataUrl (handleSerialIn ts text f).1 = lastImageDataUrl f).
    { unfold handleSerialIn.
      destruct (String.eqb_spec text B64_IMAGE_START) as [|_]; [done|].
      destruct (String.eqb_spec text B64_IMAGE_END) as [|_]; [done|].
      rewrite Hp. by case_match. }
    destruct Hf as (Hf1 & -> & Hf3). rewrite Hf1.
    by destruct (String.eqb (Js.trim text) "").
Qed.

Lemma run_in_step (blk : list (float * string)) (f : State) (a : App.Scan) :
  Forall exactMarkers blk → in_step f a →
  match last (run blk f).2 with
  | Some u => u ≠ dataUrl ""
  | None => same_image f a
  end →
  same_image (run blk f).1 (foldl App.scanLine a (mkLine <$> blk)).
Proof.
  revert f a. induction blk as [|[ts text] blk IH]; intros f a Hall Hin Hlast.
  - done.
  - apply Forall_cons in Hall as [Hm Hall].
    destruct (step_in_step (ts, text) f a Hm Hin) as [Hin' He].
    rewrite run_cons in *. cbn [fst snd] in *. rewrite fmap_cons. simpl foldl.
    apply IH; [done..|].
    rewrite last_app in Hlast.
    destruct (last (run blk (handleSerialIn ts text f).1).2) as [u|]; [done|].
    destruct (handleSerialIn ts text f).2 as [u|] eqn:Hu; simpl in Hlast.
    + by apply He.
    + destruct He as [E1 E2]. unfold same_image in *. by rewrite E1, E2.
Qed.

Lemma in_step_after_start (ts : float) (f : State) (a : App.Scan) :
  in_step (handleSerialIn ts B64_IMAGE_START f).1
          (App.scanLine a (mkLine (ts, B64_IMAGE_START))).
Proof. by rewrite handle_start. Qed.

End ConsoleFacts.

(** C10 as stated fails.  A blank line inside a capture is a chunk for the
    handler and is skipped by the recomputation: after START, a blank
    line, END the handler has set an image with an empty payload and the
    recomputation finds none.  A marker padded with white space is a chunk
    for the handler and a marker for the recomputation: the two payloads
    differ.  All the lines are still in the console buffer. *)
Lemma C10_paths_disagree :
  (Feed.text <$> Feed.consoleLines
     (Feed.run [(0%float, "B64_IMAGE_START"); (0%float, " ");
                (0%float, "B64_IMAGE_END")] Feed.initialState).1
   = ["B64_IMAGE_START"; " "; "B64_IMAGE_END"] ∧
   Feed.lastImageDataUrl
     (Feed.run [(0%float, "B64_IMAGE_START"); (0%float, " ");
                (0%float, "B64_IMAGE_END")] Feed.initialState).1
   = Some (Feed.dataUrl "") ∧
   App.extractLastImageFromConsole
     (Feed.consoleLines
        (Feed.run [(0%float, "B64_IMAGE_START"); (0%float, " ");
                   (0%float, "B64_IMAGE_END")] Feed.initialState).1)
   = None) ∧
  (Feed.lastImageDataUrl
     (Feed.run [(0%float, "B64_IMAGE_START"); (0%float, "QUJD");
                (0%float, " B64_IMAGE_START"); (0%float, "REVG");
                (0%float, "B64_IMAGE_END")] Feed.initialState).1
   = Some (Feed.dataUrl "QUJDB64_IMAGE_STARTREVG") ∧
   App.extractLastImageFromConsole
     (Feed.consoleLines
        (Feed.run [(0%float, "B64_IMAGE_START"); (0%float, "QUJD");
                   (0%float, " B64_IMAGE_START"); (0%float, "REVG");
                   (0%float, "B64_IMAGE_END")] Feed.initialState).1)
   = Some "REVG") ∧
  Feed.lastImageDataUrl
    (Feed.run [(0%float, "B64_IMAGE_START"); (0%float, " ");
               (0%float, "B64_IMAGE_END")] Feed.initialState).1
  ≠ Feed.dataUrl <$>
      App.extractLastImageFromConsole
        (Feed.consoleLines
           (Feed.run [(0%float, "B64_IMAGE_START"); (0%float, " ");
                      (0%float, "B64_IMAGE_END")] Feed.initialState).1).
Proof. vm_compute. repeat split. discriminate. Qed.

(** C10, amended.  Take a stream in which some [B64_IMAGE_START] and all
    the lines after it are still in the console buffer, no line after it
    differs from a marker only by surrounding white space, and the image
    the handler has set last was set after it and has a payload that is
    not empty.  Then the payload recomputed from the console is the
    payload of that image. *)
Theorem C10_paths_agree_on_exact_markers
    (pre : list (float * string)) (t0 : float) (blk : list (float * string))
    (u : string) :
  length blk < Feed.CONSOLE_CAP →
  Forall exactMarkers blk →
  last (Feed.run blk
          (Feed.run (pre ++ [(t0, Feed.B64_IMAGE_START)]) Feed.initialState).1).2
  = Some u →
  u ≠ Feed.dataUrl "" →
  Feed.lastImageDataUrl
    (Feed.run (pre ++ (t0, Feed.B64_IMAGE_START) :: blk) Feed.initialState).1
  = Some u ∧
  Feed.dataUrl <$>
    App.extractLastImageFromConsole
      (Feed.consoleLines
         (Feed.run (pre ++ (t0, Feed.B64_IMAGE_START) :: blk)
            Feed.initialState).1)
  = Some u.
Proof.
  intros Hlen Hall Hem Hne.
  assert (Hagree :
    Feed.lastImageDataUrl
      (Feed.run (pre ++ (t0, Feed.B64_IMAGE_START) :: blk) Feed.initialState).1
    = Feed.dataUrl <$>
        App.extractLastImageFromConsole
          (Feed.consoleLines
             (Feed.run (pre ++ (t0, Feed.B64_IMAGE_START) :: blk)
                Feed.initialState).1)).
  { rewrite console_is_suffix, fmap_app.
    destruct (keep_last_app_short Feed.CONSOLE_CAP (mkLine <$> pre)
                (mkLine <$> (t0, Feed.B64_IMAGE_START) :: blk)) as [a Ha].
    { rewrite length_fmap. simpl. lia. }
    rewrite Ha. unfold App.extractLastImageFromConsole.
    rewrite foldl_app, fmap_cons. simpl foldl.
    replace (pre ++ (t0, Feed.B64_IMAGE_START) :: blk)
      with ((pre ++ [(t0, Feed.B64_IMAGE_START)]) ++ blk)
      by (by rewrite <- app_assoc).
    rewrite (run_app (pre ++ _) blk). cbn [fst].
    rewrite (run_app pre [_]) in *. cbn [fst] in *.
    rewrite run_cons in *. cbn [fst Feed.run] in *.
    apply run_in_step; [done | apply in_step_after_start | by rewrite Hem]. }
  assert (Hlast :
    Feed.lastImageDataUrl
      (Feed.run (pre ++ (t0, Feed.B64_IMAGE_START) :: blk) Feed.initialState).1
    = Some u).
  { replace (pre ++ (t0, Feed.B64_IMAGE_START) :: blk)
      with ((pre ++ [(t0, Feed.B64_IMAGE_START)]) ++ blk)
      by (by rewrite <- app_assoc).
    rewrite (run_app (pre ++ _) blk). cbn [fst].
    by apply run_last_image. }
  split; [done|]. by rewrite <- Hagree.
Qed.

Lemma C10_paths_agree_on_exact_markers_witness :
  Feed.lastImageDataUrl
    (Feed.run ([(0%float, "B64_IMAGE_END"); (1%float, " B64_IMAGE_START ")]
               ++ (2%float, Feed.B64_IMAGE_START)
                  :: [(3%float, " aGVs"); (4%float, "  "); (5%float, "bG8= ");
                      (6%float, Feed.B64_IMAGE_END);
                      (7%float, "RECV_ROVER_x,M,0000000000")])
       Feed.initialState).1
  = Some "data:image/jpeg;base64,aGVsbG8=" ∧
  Feed.dataUrl <$>
    App.extractLastImageFromConsole
      (Feed.consoleLines
         (Feed.run ([(0%float, "B64_IMAGE_END"); (1%float, " B64_IMAGE_START ")]
                    ++ (2%float, Feed.B64_IMAGE_START)
                       :: [(3%float, " aGVs"); (4%float, "  "); (5%float, "bG8= ");
                           (6%float, Feed.B64_IMAGE_END);
                           (7%float, "RECV_ROVER_x,M,0000000000")])
            Feed.initialState).1)
  = Some "data:image/jpeg;base64,aGVsbG8=".
Proof.
  apply (C10_paths_agree_on_exact_markers
           [(0%float, "B64_IMAGE_END"); (1%float, " B64_IMAGE_START ")] 2%float
           [(3%float, " aGVs"); (4%float, "  "); (5%float, "bG8= ");
            (6%float, Feed.B64_IMAGE_END);
            (7%float, "RECV_ROVER_x,M,0000000000")]).
  - vm_compute. lia.
  - repeat constructor; vm_compute; congruence.
  - reflexivity.
  - discriminate.
Defined.

(** ** The matrix line decoder *)

Section GridFacts.

Import Grid.

Lemma scanChar_spec (v : nat) (st : RowScan) (c : nat) (ch : ascii) :
  scanChar v st c ch =
  {| rowCells := rowCells st ++ [cellOf ch];
     roverPose := if isRoverDigit ch
                  then Some {| row := v; col := c; dir := digitDirection ch |}
                  else roverPose st |}.
Proof.
  destruct ch as [[] [] [] [] [] [] [] []]; reflexivity.
Qed.

Lemma last_app_from_option {A} (l1 l2 : list A) :
  last (l1 ++ l2) = from_option Some (last l1) (last l2).
Proof.
  destruct l2 as [|x l2 _] using rev_ind.
  - by rewrite app_nil_r.
  - by rewrite app_assoc, !last_snoc.
Qed.

Lemma forEachChar_spec (v : nat) (chs : list ascii) (c : nat) (st : RowScan) :
  forEachChar v chs c st =
  {| rowCells := rowCells st ++ (cellOf <$> chs);
     roverPose := from_option Some (roverPose st) (last (rowHits v chs c)) |}.
Proof.
  revert c st. induction chs as [|ch chs IH]; intros c st.
  - simpl. rewrite app_nil_r. by destruct st.
  - cbn [forEachChar]. rewrite IH, scanChar_spec. cbn [rowCells roverPose].
    rewrite <- app_assoc. f_equal.
    cbn [rowHits]. rewrite last_app_from_option.
    by destruct (isRoverDigit ch), (last (rowHits v chs (S c))).
Qed.

Lemma rowHits_blank (v : nat) (tok : string) (c : nat) :
  Js.trim tok = "" → rowHits v (Js.chars (Js.trim tok)) c = [].
Proof. by intros ->. Qed.

Lemma rowStep_spec (toks : list string) (acc : Parsed) (v : nat) :
  rowStep toks (numRowsOf toks) acc v =
  {| grid := grid acc ++ [decodeRow (sourceToken toks v)];
     pose := from_option Some (pose acc)
               (last (rowHits v (Js.chars (Js.trim (sourceToken toks v))) 0)) |}.
Proof.
  unfold rowStep, decodeRow, sourceToken.
  destruct (String.eqb_spec (Js.trim (default "" (toks !! (numRowsOf toks - 1 - v)))) "")
    as [E|_].
  - by rewrite E.
  - by rewrite forEachChar_spec.
Qed.

Lemma rows_spec (toks : list string) (k : nat) :
  foldl (rowStep toks (numRowsOf toks)) {| grid := []; pose := None |} (seq 0 k)
  = {| grid := (λ v, decodeRow (sourceToken toks v)) <$> seq 0 k;
       pose := last (hitsUpTo toks k) |}.
Proof.
  unfold hitsUpTo. induction k as [|k IH]; [done|].
  rewrite seq_S, foldl_app, IH. simpl foldl. rewrite rowStep_spec.
  cbn [grid pose].
  rewrite fmap_app, bind_app. simpl. rewrite app_nil_r.
  by rewrite last_app_from_option.
Qed.

Lemma parseRows_spec (toks : list string) :
  parseRows toks =
  {| grid := (λ v, decodeRow (sourceToken toks v)) <$> seq 0 (numRowsOf toks);
     pose := last (hitsUpTo toks (numRowsOf toks)) |}.
Proof. apply rows_spec. Qed.

End GridFacts.

Section ScanOrder.

Import Grid.

Lemma elem_of_rowHits (v : nat) (chs : list ascii) (c : nat) (p : RoverPose) :
  p ∈ rowHits v chs c ↔
  row p = v ∧ c ≤ col p ∧
  ∃ ch, chs !! (col p - c) = Some ch ∧ isRoverDigit ch = true ∧
        dir p = digitDirection ch.
Proof.
  revert c. induction chs as [|ch chs IH]; intros c; cbn [rowHits].
  - split; [by intros ?%elem_of_nil | by intros (_ & _ & ? & ? & _)].
  - rewrite elem_of_app, IH. split.
    + intros [Hh | (Hr & Hc & ch' & Hl & Hd & Hdir)].
      * destruct (isRoverDigit ch) eqn:Hd; [|by apply elem_of_nil in Hh].
        apply list_elem_of_singleton in Hh as ->. simpl.
        split; [done|]. split; [done|]. exists ch.
        by rewrite Nat.sub_diag.
      * split; [done|]. split; [lia|]. exists ch'.
        replace (col p - c) with (S (col p - S c)) by lia. done.
    + intros (Hr & Hc & ch' & Hl & Hd & Hdir).
      destruct (decide (col p = c)) as [E|NE].
      * left. rewrite E, Nat.sub_diag in Hl. simpl in Hl. simplify_eq.
        rewrite Hd. apply list_elem_of_singleton.
        destruct p as [pr pc pd]; simpl in *. by subst.
      * right. split; [done|]. split; [lia|]. exists ch'.
        replace (col p - c) with (S (col p - S c)) in Hl by lia. done.
Qed.

Lemma rowHits_sorted (v : nat) (chs : list ascii) (c : nat) :
  StronglySorted scan_lt (rowHits v chs c).
Proof.
  revert c. induction chs as [|ch chs IH]; intros c; cbn [rowHits].
  - constructor.
  - apply StronglySorted_app_2; [| |apply IH].
    + intros q p Hq (Hr & Hc & _)%elem_of_rowHits.
      destruct (isRoverDigit ch); [|by apply elem_of_nil in Hq].
      apply list_elem_of_singleton in Hq as ->. right. simpl. split; [done|lia].
    + destruct (isRoverDigit ch); repeat constructor.
Qed.

Lemma elem_of_hitsUpTo (toks : list string) (k : nat) (p : RoverPose) :
  p ∈ hitsUpTo toks k ↔
  row p < k ∧
  ∃ ch, Js.chars (Js.trim (sourceToken toks (row p))) !! col p = Some ch ∧
        isRoverDigit ch = true ∧ dir p = digitDirection ch.
Proof.
  unfold hitsUpTo. rewrite list_elem_of_bind. split.
  - intros (v & (Hr & _ & ch & Hl & Hd & Hdir)%elem_of_rowHits & Hv%elem_of_seq).
    rewrite Nat.sub_0_r in Hl. subst v. split; [lia|]. by exists ch.
  - intros (Hk & ch & Hl & Hd & Hdir). exists (row p). split.
    + apply elem_of_rowHits. split; [done|]. split; [lia|]. exists ch.
      by rewrite Nat.sub_0_r.
    + apply elem_of_seq. lia.
Qed.

Lemma hitsUpTo_sorted (toks : list string) (k : nat) :
  StronglySorted scan_lt (hitsUpTo toks k).
Proof.
  unfold hitsUpTo. induction k as [|k IH]; [constructor|].
  rewrite seq_S, bind_app. simpl. rewrite app_nil_r.
  apply StronglySorted_app_2; [|done|apply rowHits_sorted].
  intros q p (Hq & _)%(elem_of_hitsUpTo toks k) (Hr & _)%elem_of_rowHits.
  left. lia.
Qed.

Lemma sorted_last_is_greatest {A} (R : relation A) (l : list A) (p : A) :
  StronglySorted R l → last l = Some p →
  p ∈ l ∧ ∀ q, q ∈ l → q = p ∨ R q p.
Proof.
  intros Hs Hl. split; [by apply last_Some_elem_of|].
  apply last_Some in Hl as [l' ->].
  intros q [Hq | ->%list_elem_of_singleton]%elem_of_app; [|by left].
  right. eapply StronglySorted_app_1_elem_of; [done..|].
  by apply list_elem_of_singleton.
Qed.

(** The pose returned for the tokens [toks] is the rover digit read last:
    none is read after it. *)
Lemma parseRows_pose (toks : list string) :
  match pose (parseRows toks) with
  | Some p => rover_at toks p ∧ ∀ q, rover_at toks q → q = p ∨ scan_lt q p
  | None => ∀ q, ¬ rover_at toks q
  end.
Proof.
  rewrite parseRows_spec. cbn [pose].
  destruct (last (hitsUpTo toks (numRowsOf toks))) as [p|] eqn:Hl.
  - destruct (sorted_last_is_greatest scan_lt _ p (hitsUpTo_sorted _ _) Hl)
      as [Hin Hmax].
    split; [by apply elem_of_hitsUpTo|].
    intros q Hq. apply Hmax. by apply elem_of_hitsUpTo.
  - apply last_None in Hl. intros q Hq%elem_of_hitsUpTo.
    rewrite Hl in Hq. by apply elem_of_nil in Hq.
Qed.

End ScanOrder.

(** C1 as stated fails.  With a rover digit in each of two tokens the
    pose comes from token 0, shown on the bottom display row, which the
    loop reads last; the last digit in storage-token order is that of
    token 1. *)
Lemma C1_storage_order_fails :
  Grid.rowTokensOf "RECV_ROVER_x,M,2000000000,0003000000"
  = Some ["2000000000"; "0003000000"] ∧
  Grid.pose <$> Grid.parseMatrixLine "RECV_ROVER_x,M,2000000000,0003000000"
  = Some (Some {| Grid.row := 1; Grid.col := 0; Grid.dir := Grid.DirN |}) ∧
  lastInStorageOrder ["2000000000"; "0003000000"]
  = Some {| Grid.row := 0; Grid.col := 3; Grid.dir := Grid.DirE |} ∧
  Grid.pose <$> Grid.parseMatrixLine "RECV_ROVER_x,M,2000000000,0003000000"
  ≠ Some (lastInStorageOrder ["2000000000"; "0003000000"]).
Proof. vm_compute. repeat split. discriminate. Qed.

(** C1, amended.  The decoded pose is the one set by the rover digit read
    last, where display rows are read top to bottom, that is, tokens from
    index [numRows - 1] down to index [0], and columns left to right within
    a row; without a rover digit in the rows read there is no pose. *)
Theorem C1_last_rover_digit_in_display_order (line : string)
    (toks : list string) :
  Grid.rowTokensOf line = Some toks →
  ∃ parsed, Grid.parseMatrixLine line = Some parsed ∧
    match Grid.pose parsed with
    | Some p => rover_at toks p ∧ ∀ q, rover_at toks q → q = p ∨ scan_lt q p
    | None => ∀ q, ¬ rover_at toks q
    end.
Proof.
  intros Ht. exists (Grid.parseRows toks). split.
  - unfold Grid.parseMatrixLine. by rewrite Ht.
  - apply parseRows_pose.
Qed.

Lemma C1_last_rover_digit_in_display_order_witness :
  ∃ parsed,
    Grid.parseMatrixLine "RECV_ROVER_x,M,2000000000,0003000000" = Some parsed ∧
    match Grid.pose parsed with
    | Some p => rover_at ["2000000000"; "0003000000"] p ∧
                ∀ q, rover_at ["2000000000"; "0003000000"] q → q = p ∨ scan_lt q p
    | None => ∀ q, ¬ rover_at ["2000000000"; "0003000000"] q
    end.
Proof.
  apply (C1_last_rover_digit_in_display_order
           "RECV_ROVER_x,M,2000000000,0003000000").
  reflexivity.
Defined.

(** ** Splitting an accepted line *)

Section SplitFacts.

Lemma prefix_inv (p s : string) :
  String.prefix p s = true → ∃ b, s = p +:+ b.
Proof.
  revert s. induction p as [|c p IH]; intros s H.
  - by exists s.
  - destruct s as [|c' s]; [done|]. simpl in H.
    destruct (ascii_dec c c') as [->|]; [|done].
    destruct (IH s H) as [b ->]. by exists b.
Qed.

Lemma includes_inv (p s : string) :
  Js.includes p s = true → ∃ a b, s = a +:+ p +:+ b.
Proof.
  induction s as [|c s IH]; cbn [Js.includes]; intros H.
  - rewrite orb_false_r in H. apply prefix_inv in H as [b ->]. by exists "", b.
  - apply orb_true_iff in H as [H|H].
    + apply prefix_inv in H as [b ->]. by exists "", b.
    + destruct (IH H) as (a & b & ->). by exists (String c a), b.
Qed.

Lemma split_app_sep (sep : ascii) (a b : string) :
  Js.split sep (a +:+ String sep b) = Js.split sep a ++ Js.split sep b.
Proof.
  unfold Js.split. induction a as [|c a IH].
  - change ("" +:+ String sep b) with (String sep b). cbn [Js.split_go].
    rewrite Ascii.eqb_refl. by destruct (Js.split_go sep b).
  - rewrite string_app_cons. cbn [Js.split_go].
    destruct (Js.split_go sep (a +:+ String sep b)) as [t ts],
             (Js.split_go sep a) as [ta tsa].
    destruct (Js.split_go sep b) as [tb tsb]. simpl in IH. simplify_eq.
    by destruct (Ascii.eqb c sep).
Qed.

Lemma split_nonempty (sep : ascii) (s : string) : Js.split sep s ≠ [].
Proof. unfold Js.split. by destruct (Js.split_go sep s). Qed.

Lemma indexOf_app_here (x : string) (xs ys : list string) :
  ∃ i, Js.indexOf x (xs ++ x :: ys) = Some i ∧ i ≤ length xs.
Proof.
  induction xs as [|y xs (i & Hi & Hle)]; simpl.
  - rewrite String.eqb_refl. exists 0. split; [done|lia].
  - destruct (String.eqb y x).
    + exists 0. split; [done|lia].
    + rewrite Hi. exists (S i). split; [done|lia].
Qed.

(** A line with the substring [",M,"] has an ["M"] token followed by at
    least one token. *)
Lemma rowTokensOf_accepted (line : string) :
  Js.includes ",M," line = true →
  ∃ toks, Grid.rowTokensOf line = Some toks ∧ toks ≠ [].
Proof.
  intros (a & b & ->)%includes_inv.
  unfold Grid.rowTokensOf.
  change (a +:+ ",M," +:+ b) with (a +:+ String "," ("M" +:+ String "," b)).
  rewrite !split_app_sep. change (Js.split "," "M") with ["M"]. simpl app.
  destruct (indexOf_app_here "M" (Js.split "," a) (Js.split "," b))
    as (i & -> & Hi).
  assert (0 < length (Js.split "," b)).
  { pose proof (split_nonempty "," b). destruct (Js.split "," b); simpl; [done|lia]. }
  assert (0 < length (drop (S i) (Js.split "," a ++ "M" :: Js.split "," b))).
  { rewrite length_drop, length_app. simpl. lia. }
  destruct (Nat.eqb_spec (length (drop (S i) (Js.split "," a ++ "M" :: Js.split "," b))) 0);
    [lia|].
  eexists. split; [done|]. intros E. rewrite E in *. simpl in *. lia.
Qed.

Lemma elem_of_chars_trimStart (ch : ascii) (s : string) :
  ch ∈ Js.chars (Js.trimStart s) → ch ∈ Js.chars s.
Proof.
  induction s as [|c s IH]; simpl; [done|].
  destruct (Js.isWhiteSpace c); [|done].
  intros H. right. by apply IH.
Qed.

Lemma elem_of_chars_trimEnd (ch : ascii) (s : string) :
  ch ∈ Js.chars (Js.trimEnd s) → ch ∈ Js.chars s.
Proof.
  induction s as [|c s IH]; simpl; [done|].
  destruct (Js.trimEnd s) as [|c' s'].
  - destruct (Js.isWhiteSpace c); simpl.
    + by intros ?%elem_of_nil.
    + intros ->%list_elem_of_singleton. by left.
  - simpl. intros [->|H]%elem_of_cons; [by left|].
    right. by apply IH.
Qed.

Lemma elem_of_chars_trim (ch : ascii) (s : string) :
  ch ∈ Js.chars (Js.trim s) → ch ∈ Js.chars s.
Proof.
  intros H%elem_of_chars_trimEnd. by apply elem_of_chars_trimStart.
Qed.

Lemma foldl_ext_in {A B} (f g : A → B → A) (l : list B) (a : A) :
  (∀ acc x, x ∈ l → f acc x = g acc x) → foldl f a l = foldl g a l.
Proof.
  revert a. induction l as [|x l IH]; intros a H; [done|]. simpl.
  rewrite H by left. apply IH. intros acc y Hy. apply H. by right.
Qed.

End SplitFacts.

Section GridShape.

Import Grid.

(** The loop reads inside [rowTokens]. *)
Lemma tokenIndex_in_range (toks : list string) (v : nat) :
  v < Nat.min (length toks) GRID_ROWS →
  is_Some (toks !! (Nat.min (length toks) GRID_ROWS - 1 - v)).
Proof. intros Hv. apply lookup_lt_is_Some. lia. Qed.

Lemma parseRows_length (toks : list string) :
  length (grid (parseRows toks)) = Nat.min (length toks) GRID_ROWS.
Proof. rewrite parseRows_spec. cbn [grid]. by rewrite length_fmap, length_seq. Qed.

(** Display row [v] is decoded from token [numRows - 1 - v]. *)
Lemma parseRows_row (toks : list string) (v : nat) :
  v < Nat.min (length toks) GRID_ROWS →
  grid (parseRows toks) !! v
  = Some (decodeRow (default "" (toks !! (Nat.min (length toks) GRID_ROWS - 1 - v)))).
Proof.
  intros Hv. rewrite parseRows_spec. cbn [grid].
  rewrite list_lookup_fmap, lookup_seq_lt by done. done.
Qed.

(** Tokens after the tenth are not read. *)
Lemma parseRows_take (toks : list string) :
  parseRows toks = parseRows (take GRID_ROWS toks).
Proof.
  unfold parseRows. rewrite length_take.
  replace (Nat.min (Nat.min GRID_ROWS (length toks)) GRID_ROWS)
    with (Nat.min (length toks) GRID_ROWS) by lia.
  apply foldl_ext_in. intros acc v [_ Hv]%elem_of_seq.
  unfold rowStep. rewrite lookup_take_lt by lia. done.
Qed.

Lemma parseRows_no_rover (toks : list string) :
  (∀ tok ch, tok ∈ toks → ch ∈ Js.chars tok → isRoverDigit ch = false) →
  pose (parseRows toks) = None.
Proof.
  intros Hno. pose proof (parseRows_pose toks) as H.
  destruct (pose (parseRows toks)) as [p|]; [|done].
  destruct H as [(_ & ch & Hl & Hd & _) _].
  unfold sourceToken in Hl.
  destruct (toks !! (numRowsOf toks - 1 - row p)) as [tok|] eqn:Ht; simpl in Hl.
  - rewrite (Hno tok ch) in Hd; [done| |].
    + by eapply list_elem_of_lookup_2.
    + apply elem_of_chars_trim. by eapply list_elem_of_lookup_2.
  - by rewrite lookup_nil in Hl.
Qed.

End GridShape.

(** C2 as stated fails.  The line of two tokens that the handler accepts
    decodes to a grid of two rows, not ten: no row is padded.  A row is as
    wide as its trimmed token, so neither is the width always ten. *)
Lemma C2_grid_not_padded :
  Js.startsWith "RECV_ROVER_" "RECV_ROVER_x,M,0000000000,0002000000"
  && Js.includes ",M," "RECV_ROVER_x,M,0000000000,0002000000" = true ∧
  length ∘ Grid.grid <$>
    Grid.parseMatrixLine "RECV_ROVER_x,M,0000000000,0002000000" = Some 2 ∧
  length ∘ Grid.grid <$>
    Grid.parseMatrixLine "RECV_ROVER_x,M,0000000000,0002000000" ≠ Some 10 ∧
  fmap length ∘ Grid.grid <$> Grid.parseMatrixLine "RECV_ROVER_x,M,01,"
  = Some [10; 2].
Proof. vm_compute. repeat split. discriminate. Qed.

(** C2, amended.  A line accepted by the handler always decodes; with N
    tokens after the ["M"] token the grid has exactly min(N,10) rows and no
    padding rows; display row [v] is decoded from token [min(N,10) - 1 - v];
    tokens beyond the tenth are ignored. *)
Theorem C2_grid_has_min_rows (line : string) :
  Js.startsWith "RECV_ROVER_" line && Js.includes ",M," line = true →
  ∃ toks,
    Grid.rowTokensOf line = Some toks ∧ toks ≠ [] ∧
    Grid.parseMatrixLine line = Some (Grid.parseRows toks) ∧
    length (Grid.grid (Grid.parseRows toks)) = Nat.min (length toks) 10 ∧
    (∀ v, v < Nat.min (length toks) 10 →
       Grid.grid (Grid.parseRows toks) !! v
       = Some (decodeRow (default "" (toks !! (Nat.min (length toks) 10 - 1 - v))))) ∧
    Grid.parseRows toks = Grid.parseRows (take 10 toks).
Proof.
  intros [_ Hinc]%andb_true_iff.
  destruct (rowTokensOf_accepted line Hinc) as (toks & Ht & Hne).
  exists toks. split_and!; [done|done| | | |].
  - unfold Grid.parseMatrixLine. by rewrite Ht.
  - apply parseRows_length.
  - apply parseRows_row.
  - apply parseRows_take.
Qed.

Lemma C2_grid_has_min_rows_witness :
  ∃ toks,
    Grid.rowTokensOf "RECV_ROVER_-45,-44,M,2000000000,0000000000,1000000000"
    = Some toks ∧ toks ≠ [] ∧
    Grid.parseMatrixLine "RECV_ROVER_-45,-44,M,2000000000,0000000000,1000000000"
    = Some (Grid.parseRows toks) ∧
    length (Grid.grid (Grid.parseRows toks)) = Nat.min (length toks) 10 ∧
    (∀ v, v < Nat.min (length toks) 10 →
       Grid.grid (Grid.parseRows toks) !! v
       = Some (decodeRow (default "" (toks !! (Nat.min (length toks) 10 - 1 - v))))) ∧
    Grid.parseRows toks = Grid.parseRows (take 10 toks).
Proof.
  apply (C2_grid_has_min_rows
           "RECV_ROVER_-45,-44,M,2000000000,0000000000,1000000000").
  reflexivity.
Defined.

(** C3. The line of the spec decodes to pose row 0, column 3, direction
    N: of its two tokens the last is the top display row, and in general
    display row [v] is decoded from token [numRows - 1 - v]. *)
Theorem C3_example_pose :
  Grid.rowTokensOf "RECV_ROVER_x,M,0000000000,0002000000"
  = Some ["0000000000"; "0002000000"] ∧
  Grid.parseMatrixLine "RECV_ROVER_x,M,0000000000,0002000000"
  = Some {| Grid.grid := [decodeRow "0002000000"; decodeRow "0000000000"];
            Grid.pose := Some {| Grid.row := 0; Grid.col := 3;
                                 Grid.dir := Grid.DirN |} |} ∧
  Js.chars "0002000000" !! 3 = Some "2"%char ∧
  Grid.codeToDirection 2 = Grid.DirN ∧
  (∀ toks v,
     v < Nat.min (length toks) Grid.GRID_ROWS →
     Grid.grid (Grid.parseRows toks) !! v
     = Some (decodeRow
               (default "" (toks !! (Nat.min (length toks) Grid.GRID_ROWS - 1 - v))))).
Proof.
  split_and!; [by vm_compute..|]. apply parseRows_row.
Qed.

(** C8. When a matrix line decodes and none of its row tokens holds a
    rover digit, applying it replaces the grid by the decoded grid and
    keeps the pose held before. *)
Theorem C8_pose_kept_without_rover_digit (line : string) (toks : list string)
    (st : Grid.State) :
  Grid.rowTokensOf line = Some toks →
  (∀ tok ch, tok ∈ toks → ch ∈ Js.chars tok → isRoverDigit ch = false) →
  Grid.parseMatrixLine line = Some (Grid.parseRows toks) ∧
  Grid.applyMatrix line st
  = {| Grid.st_grid := Grid.grid (Grid.parseRows toks);
       Grid.st_pose := Grid.st_pose st;
       Grid.st_poseRef := Grid.st_poseRef st |}.
Proof.
  intros Ht Hno. unfold Grid.applyMatrix, Grid.parseMatrixLine. rewrite Ht.
  simpl. by rewrite (parseRows_no_rover toks Hno).
Qed.

Lemma C8_pose_kept_without_rover_digit_witness :
  Grid.st_pose (Grid.applyMatrix "RECV_ROVER_-45,-44,M,01,10" moved_state)
  = {| Grid.row := 4; Grid.col := 7; Grid.dir := Grid.DirE |} ∧
  Grid.st_grid (Grid.applyMatrix "RECV_ROVER_-45,-44,M,01,10" moved_state)
  = Grid.grid (Grid.parseRows ["01"; "10"]).
Proof.
  destruct (C8_pose_kept_without_rover_digit "RECV_ROVER_-45,-44,M,01,10"
              ["01"; "10"] moved_state) as [_ ->].
  - reflexivity.
  - intros tok ch Ht Hc.
    apply elem_of_cons in Ht as [->|Ht];
      [|apply elem_of_cons in Ht as [->|Ht]; [|by apply elem_of_nil in Ht]];
      vm_compute in Hc;
      repeat (apply elem_of_cons in Hc as [->|Hc]; [reflexivity|]);
      by apply elem_of_nil in Hc.
  - split; reflexivity.
Defined.

(** ** Field resolution *)

Section FieldFacts.

Import Telemetry.

Lemma exactPass_spec (obj : Obj) (names : list string) :
  exactPass obj names = (λ n, get obj n) <$> firstAlias (has obj) names.
Proof.
  induction names as [|n names IH]; [done|]. simpl.
  by destruct (has obj n).
Qed.

Lemma indexKeys_snoc (f : string → string) (ks : list string) (k : string) :
  indexKeys f (ks ++ [k]) = <[f k := k]> (indexKeys f ks).
Proof. unfold indexKeys. by rewrite foldl_app. Qed.

Lemma indexKeys_lookup (f : string → string) (ks : list string) (x : string) :
  indexKeys f ks !! x = last (filter (λ k, f k = x) ks).
Proof.
  induction ks as [|k ks IH] using rev_ind; [done|].
  rewrite indexKeys_snoc, filter_app, filter_cons, filter_nil.
  destruct (decide (f k = x)) as [<-|NE].
  - by rewrite lookup_insert_eq, last_snoc.
  - by rewrite lookup_insert_ne, app_nil_r.
Qed.

Lemma lastKey_is_Some (f : string → string) (obj : Obj) (n : string) :
  is_Some (lastKey f obj (f n)) ↔ matchesUnder f obj n = true.
Proof.
  unfold lastKey, matchesUnder. rewrite last_is_Some, bool_decide_eq_true.
  rewrite list_elem_of_fmap. split.
  - intros Hne. destruct (filter _ _) as [|k l] eqn:E; [done|].
    assert (k ∈ filter (λ k, f k = f n) (keys obj)) as [Hk ?]%list_elem_of_filter
      by (rewrite E; left).
    by exists k.
  - intros (k & Hk & Hin) E.
    assert (k ∈ filter (λ k, f k = f n) (keys obj)) as Hf
      by (by apply list_elem_of_filter).
    rewrite E in Hf. by apply elem_of_nil in Hf.
Qed.

Lemma mapPass_spec (f : string → string) (obj : Obj) (names : list string) :
  mapPass obj (indexKeys f (keys obj)) f names =
  match firstAlias (matchesUnder f obj) names with
  | Some n => get obj <$> lastKey f obj (f n)
  | None => None
  end.
Proof.
  induction names as [|n names IH]; [done|]. simpl.
  rewrite indexKeys_lookup. fold (lastKey f obj (f n)).
  destruct (matchesUnder f obj n) eqn:Hm.
  - apply lastKey_is_Some in Hm as [k Hk]. by rewrite Hk.
  - destruct (lastKey f obj (f n)) as [k|] eqn:Hk; [|done].
    assert (is_Some (lastKey f obj (f n))) as Hs%lastKey_is_Some by eauto.
    congruence.
Qed.

Lemma get_Some (obj : Obj) (k : string) (v : JsValue) :
  wf obj → get obj k = Some v ↔ (k, v) ∈ obj.
Proof.
  unfold wf. induction obj as [|[k' v'] obj IH]; simpl.
  - intros _. split; [done|by intros ?%elem_of_nil].
  - intros [Hk Hnd]%NoDup_cons. rewrite elem_of_cons.
    destruct (String.eqb_spec k' k) as [->|NE].
    + split; [intros [= ->]; by left|].
      intros [[= ->]|Hin]; [done|]. destruct Hk.
      apply list_elem_of_fmap. by exists (k, v).
    + rewrite (IH Hnd). split; [by right|]. by intros [[= -> ->]|?].
Qed.

(** Own-property lookup does not depend on the order of the keys. *)
Lemma get_Permutation (obj obj' : Obj) (k : string) :
  wf obj → obj ≡ₚ obj' → get obj k = get obj' k.
Proof.
  intros Hwf Hp.
  assert (wf obj') as Hwf' by (unfold wf in *; by rewrite <- Hp).
  apply option_eq. intros v. rewrite !get_Some by done. by rewrite Hp.
Qed.

Lemma firstAlias_ext (P Q : string → bool) (names : list string) :
  (∀ n, P n = Q n) → firstAlias P names = firstAlias Q names.
Proof. intros H. induction names as [|n names IH]; simpl; by rewrite ?H, ?IH. Qed.

End FieldFacts.

(** C9. [getField] runs the three passes in full one after the other, and
    within a pass the first alias of the table that matches decides: an
    alias that is a key of the record wins over every case-insensitive
    match, a case-insensitive match over every separator-stripped match,
    and no match at all yields [undefined].  When some alias is a key, the
    result does not depend on the order of the record's keys; with the keys
    ["v"] and ["V Esp"] in one record, in either order, the ESP voltage is
    the value under ["V Esp"], the first alias of its table, and a table
    that lists both resolves to the one it lists first.  When several keys
    read alike in the second or third pass, the last of them in
    [Object.keys] order is the one returned. *)
Theorem C9_getField_pass_order :
  (∀ obj names,
     match firstAlias (Telemetry.has obj) names with
     | Some n => Telemetry.getField obj names = Telemetry.get obj n
     | None =>
       match firstAlias (matchesUnder Js.toLowerCase obj) names with
       | Some n =>
           ∃ k, lastKey Js.toLowerCase obj (Js.toLowerCase n) = Some k ∧
                Telemetry.getField obj names = Telemetry.get obj k
       | None =>
         match firstAlias (matchesUnder Telemetry.norm obj) names with
         | Some n =>
             ∃ k, lastKey Telemetry.norm obj (Telemetry.norm n) = Some k ∧
                  Telemetry.getField obj names = Telemetry.get obj k
         | None => Telemetry.getField obj names = None
         end
       end
     end) ∧
  (∀ obj obj' names,
     Telemetry.wf obj → obj ≡ₚ obj' →
     is_Some (firstAlias (Telemetry.has obj) names) →
     Telemetry.getField obj' names = Telemetry.getField obj names) ∧
  (∀ obj,
     Telemetry.has obj "V Esp" = true →
     Telemetry.getField obj (Telemetry.NAMES Telemetry.vEsp)
     = Telemetry.get obj "V Esp") ∧
  (∀ x y,
     Telemetry.getField [("v", x); ("V Esp", y)] (Telemetry.NAMES Telemetry.vEsp)
     = Some y ∧
     Telemetry.getField [("V Esp", y); ("v", x)] (Telemetry.NAMES Telemetry.vEsp)
     = Some y ∧
     Telemetry.getField [("v", x); ("V Esp", y)] ["v"; "V Esp"] = Some x ∧
     Telemetry.getField [("V Esp", y); ("v", x)] ["v"; "V Esp"] = Some x ∧
     Telemetry.getField [("v", x); ("V Esp", y)] ["V Esp"; "v"] = Some y ∧
     Telemetry.getField [("V Esp", y); ("v", x)] ["V Esp"; "v"] = Some y) ∧
  (∀ x y,
     Telemetry.getField [("TEMP 1", x); ("temp1", y)]
       (Telemetry.NAMES Telemetry.temp1) = Some y ∧
     Telemetry.getField [("TEMP_1", x); ("TEMP1", y)]
       (Telemetry.NAMES Telemetry.temp1) = Some y ∧
     Telemetry.getField [("pressure", x)] (Telemetry.NAMES Telemetry.temp1) = None).
Proof.
  assert (Hexact : ∀ obj names n,
            firstAlias (Telemetry.has obj) names = Some n →
            Telemetry.getField obj names = Telemetry.get obj n).
  { intros obj names n H. unfold Telemetry.getField.
    by rewrite exactPass_spec, H. }
  split_and!.
  - intros obj names.
    destruct (firstAlias (Telemetry.has obj) names) as [n|] eqn:H1;
      [by apply Hexact|].
    unfold Telemetry.getField. rewrite exactPass_spec, H1. simpl.
    rewrite !mapPass_spec.
    destruct (firstAlias (matchesUnder Js.toLowerCase obj) names) as [n|] eqn:H2.
    { assert (matchesUnder Js.toLowerCase obj n = true) as [k Hk]%lastKey_is_Some.
      { clear -H2. induction names as [|m names IH]; [done|]. simpl in H2.
        destruct (matchesUnder Js.toLowerCase obj m) eqn:E; [by simplify_eq|auto]. }
      exists k. by rewrite Hk. }
    destruct (firstAlias (matchesUnder Telemetry.norm obj) names) as [n|] eqn:H3;
      [|done].
    assert (matchesUnder Telemetry.norm obj n = true) as [k Hk]%lastKey_is_Some.
    { clear -H3. induction names as [|m names IH]; [done|]. simpl in H3.
      destruct (matchesUnder Telemetry.norm obj m) eqn:E; [by simplify_eq|auto]. }
    exists k. by rewrite Hk.
  - intros obj obj' names Hwf Hp [n Hn].
    assert (Hhas : ∀ m, Telemetry.has obj m = Telemetry.has obj' m).
    { intros m. unfold Telemetry.has. by rewrite (get_Permutation obj obj'). }
    rewrite (Hexact obj names n Hn).
    rewrite (Hexact obj' names n);
      [by rewrite (get_Permutation obj obj')|].
    by rewrite <- (firstAlias_ext _ _ names Hhas).
  - intros obj H. apply Hexact. simpl. by rewrite H.
  - intros x y. split_and!; reflexivity.
  - intros x y. split_and!; by vm_compute.
Qed.

(** ** The loop that picks the keys of a chart *)

Section PickFacts.

Import ChartKeys.

Variable windowed : list Row.
Variable maxN : nat.

Lemma setAdd_spec (name : string) (seen : list string) :
  (name ∈ seen ∧ setAdd name seen = seen) ∨
  ((name ∉ seen) ∧ setAdd name seen = seen ++ [name]).
Proof.
  unfold setAdd. destruct (decide (name ∈ seen)).
  - left. by rewrite bool_decide_eq_true_2.
  - right. by rewrite bool_decide_eq_false_2.
Qed.

(** The loop only appends, in the order of the candidates, names that are
    new and numeric. *)
Lemma pickLoop_appends (candidates seen : list string) :
  ∃ extra,
    pickLoop windowed maxN candidates seen = seen ++ extra ∧
    sublist extra candidates ∧ NoDup extra ∧
    ∀ k, k ∈ extra → (k ∉ seen) ∧ existsNumeric windowed k = true.
Proof.
  revert seen. induction candidates as [|name rest IH]; intros seen; simpl.
  { exists []. rewrite app_nil_r. split_and!; [done|done|constructor|].
    by intros k ?%elem_of_nil. }
  destruct (existsNumeric windowed name) eqn:En.
  - destruct (setAdd_spec name seen) as [[Hin ->]|[Hni ->]].
    + destruct (maxN <=? length seen).
      * exists []. rewrite app_nil_r. split_and!;
          [done|apply sublist_nil_l|constructor|by intros k ?%elem_of_nil].
      * destruct (IH seen) as (extra & -> & Hs & Hnd & Hk).
        exists extra. split_and!; [done|by apply sublist_cons|done..].
    + destruct (maxN <=? length (seen ++ [name])).
      * exists [name]. split_and!; [done| |apply NoDup_singleton|].
        -- apply sublist_skip, sublist_nil_l.
        -- by intros k ->%list_elem_of_singleton.
      * destruct (IH (seen ++ [name])) as (extra & -> & Hs & Hnd & Hk).
        exists (name :: extra). split_and!.
        -- by rewrite <- app_assoc.
        -- by apply sublist_skip.
        -- apply NoDup_cons. split; [|done]. intros Hin.
           apply Hk in Hin as [Hni' _]. apply Hni', elem_of_app. right.
           by apply list_elem_of_singleton.
        -- intros k [->|Hin]%elem_of_cons; [done|].
           apply Hk in Hin as [Hni' ?]. split; [|done].
           intros ?. apply Hni', elem_of_app. by left.
  - destruct (maxN <=? length seen).
    + exists []. rewrite app_nil_r. split_and!;
        [done|apply sublist_nil_l|constructor|by intros k ?%elem_of_nil].
    + destruct (IH seen) as (extra & -> & Hs & Hnd & Hk).
      exists extra. split_and!; [done|by apply sublist_cons|done..].
Qed.

Lemma pickLoop_length (candidates seen : list string) :
  length seen < maxN ∨ length seen = 0 →
  length (pickLoop windowed maxN candidates seen) ≤ Nat.max maxN 1.
Proof.
  revert seen. induction candidates as [|name rest IH]; intros seen Hset; simpl.
  { lia. }
  assert (Hadd : length (setAdd name seen) ≤ S (length seen)).
  { destruct (setAdd_spec name seen) as [[_ ->]|[_ ->]];
      rewrite ?length_app; simpl; lia. }
  destruct (existsNumeric windowed name).
  - destruct (Nat.leb_spec maxN (length (setAdd name seen))); [lia|].
    apply IH. by left.
  - destruct (Nat.leb_spec maxN (length seen)); [lia|]. apply IH. by left.
Qed.

Lemma pickLoop_complete (candidates seen : list string) (c : string) :
  length (pickLoop windowed maxN candidates seen) < maxN →
  c ∈ candidates → existsNumeric windowed c = true →
  c ∈ pickLoop windowed maxN candidates seen.
Proof.
  revert seen. induction candidates as [|name rest IH]; intros seen; simpl.
  { by intros _ ?%elem_of_nil. }
  intros Hlen Hc Hnum.
  set (seen' := if existsNumeric windowed name then setAdd name seen else seen) in *.
  destruct (Nat.leb_spec maxN (length seen')); [lia|].
  apply elem_of_cons in Hc as [->|Hc]; [|by apply IH].
  destruct (pickLoop_appends rest seen') as (extra & -> & _).
  apply elem_of_app. left. subst seen'. rewrite Hnum.
  destruct (setAdd_spec name seen) as [[? ->]|[_ ->]]; [done|].
  apply elem_of_app. right. by apply list_elem_of_singleton.
Qed.

Lemma existsNumeric_point (k : string) :
  existsNumeric windowed k = true →
  ∃ r, r ∈ windowed ∧ is_Some (point k r).
Proof.
  unfold existsNumeric. intros (r & Hr & H)%existsb_exists.
  exists r. split; [by apply list_elem_of_In|]. unfold point.
  apply orb_true_iff in H as [[n Hn]%bool_decide_eq_true|[n Hn]%bool_decide_eq_true].
  - rewrite Hn. by eexists.
  - rewrite Hn. destruct (top r k); by eexists.
Qed.

End PickFacts.

(** ** Unit scaling *)

(** C4 as stated fails.  The ESP voltage of the record with ["V Esp"]
    equal to 3300 is rendered as 3300 with the unit mV: it is not divided
    by 1000, and 3300 / 1000 is another number. *)
Lemma C4_rendered_voltage_unscaled :
  Telemetry.TelemetryColumn noNumeral Telemetry.vEsp
    [("V Esp", Telemetry.JNum 3300)]
  = Telemetry.Fixed 3300 2 (Some "mV") ∧
  PrimFloat.eqb 3300 (3300 / 1000) = false ∧
  shown (Telemetry.TelemetryColumn noNumeral Telemetry.vEsp
           [("V Esp", Telemetry.JNum 3300)])
  ≠ Some (3300 / 1000)%float.
Proof.
  split; [reflexivity|]. split; [reflexivity|].
  intros [=].
Qed.

(** C4, amended.  Rendered values: a number resolved for a temperature
    or humidity category is divided by 100 and shown with the degree or
    per cent sign; for every other category it is shown unscaled, and for
    the voltage, current and power categories the unit is the milli-unit
    mV, mA, mW.  Plotted values: every data set of a chart is labelled by
    a key of its series, and its point for a row is the number the row
    holds under that key, divided by 100 in the temperature chart and by
    1000 in the current chart and in the voltage chart for every key other
    than ["vout"], and left as it is in the distance chart; a row without
    such a number gives no point.  The record with ["Temp 1"] equal to
    2845 renders 28.45 (the binary64 number nearest to it, as for the
    JavaScript literal). *)
Theorem C4_unit_scaling :
  (∀ numeral c d n,
     Telemetry.getField d (Telemetry.NAMES c) = Some (Telemetry.JNum n) →
     PrimFloat.is_finite n = true →
     shown (Telemetry.TelemetryColumn numeral c d)
     = Some (if scaled100 c then (n / 100)%float else n)) ∧
  (∀ c, milliUnit c = true → scaled100 c = false) ∧
  (∀ numeral c d n,
     Telemetry.toNumberOrUndefined numeral
       (Telemetry.getField d (Telemetry.NAMES c)) = Some n →
     (scaled100 c = true →
      Telemetry.TelemetryColumn numeral c d
      = Telemetry.Fixed (n / 100) 2 (Some (centiName c))) ∧
     (∀ q, quantityOf c = Some q →
           Telemetry.TelemetryColumn numeral c d
           = Telemetry.Fixed n 2 (Some (milliName q))) ∧
     (scaled100 c = false →
      shown (Telemetry.TelemetryColumn numeral c d) = Some n)) ∧
  (∀ c, milliUnit c = true ↔ is_Some (quantityOf c)) ∧
  (∀ raw k, k ∈ Charts.defaultAliases Charts.temperature →
            Charts.normalizeValue k raw = (raw / 100)%float) ∧
  (∀ raw k, k ∈ Charts.defaultAliases Charts.current →
            Charts.normalizeValue k raw = (raw / 1000)%float) ∧
  (∀ raw k, k ∈ Charts.defaultAliases Charts.voltage → k ≠ "vout" →
            Charts.normalizeValue k raw = (raw / 1000)%float) ∧
  (∀ raw k, k ∈ Charts.defaultAliases Charts.distance →
            Charts.normalizeValue k raw = raw) ∧
  (∀ raw, Charts.normalizeValue "hum1" raw = (raw / 100)%float ∧
          Charts.normalizeValue "power" raw = (raw / 1000)%float) ∧
  (∀ windowed s label data,
     (label, data) ∈ ChartKeys.chartDatasets windowed s →
     label ∈ Charts.defaultAliases s ∧
     length data = length windowed ∧
     (label ≠ "vout" →
      ∀ i r, windowed !! i = Some r →
             data !! i = Some (plottedScale s <$> rawValue label r))) ∧
  (∀ numeral,
     Telemetry.TelemetryColumn numeral Telemetry.temp1
       [("Temp 1", Telemetry.JNum 2845)]
     = Telemetry.Fixed 28.45 2 (Some Telemetry.degC)) ∧
  (2845 / 100 = 28.45)%float.
Proof.
  assert (Hnorm : ∀ s k raw,
            k ∈ Charts.defaultAliases s → k ≠ "vout" →
            Charts.normalizeValue k raw = plottedScale s raw).
  { intros s k raw Hk Hne. destruct s; simpl in Hk;
      repeat (apply elem_of_cons in Hk as [->|Hk]; [reflexivity || done|]);
      by apply elem_of_nil in Hk. }
  assert (Hvout : ∀ s, s ≠ Charts.voltage → "vout" ∉ Charts.defaultAliases s).
  { intros [] ?; try done; apply (bool_decide_unpack _); by vm_compute. }
  split_and!.
  - intros numeral c d n Hg Hfin.
    unfold Telemetry.TelemetryColumn, Telemetry.fmt, Telemetry.fmtScaled100,
      Telemetry.toNumberOrUndefined.
    rewrite Hg, Hfin. by destruct c.
  - by intros [].
  - intros numeral c d n Hn.
    unfold Telemetry.TelemetryColumn, Telemetry.fmt, Telemetry.fmtScaled100.
    rewrite Hn. split_and!.
    + by destruct c.
    + intros q. destruct c; simpl; try done; by intros [= <-].
    + by destruct c.
  - intros c. destruct c; simpl; split; try done; try (by eexists);
      by intros [? [=]].
  - intros raw k Hk. apply (Hnorm Charts.temperature); [done|].
    intros ->. by apply (Hvout Charts.temperature) in Hk.
  - intros raw k Hk. apply (Hnorm Charts.current); [done|].
    intros ->. by apply (Hvout Charts.current) in Hk.
  - intros raw k Hk Hne. by apply (Hnorm Charts.voltage).
  - intros raw k Hk. apply (Hnorm Charts.distance); [done|].
    intros ->. by apply (Hvout Charts.distance) in Hk.
  - intros raw. split; reflexivity.
  - intros windowed s label data Hin.
    unfold ChartKeys.chartDatasets, ChartKeys.buildDatasets in Hin.
    apply list_elem_of_fmap in Hin as (k & [= -> ->] & Hk).
    unfold ChartKeys.pickExistingNumericKeys in Hk.
    destruct (pickLoop_appends windowed (ChartKeys.chartLimit s)
                (Charts.defaultAliases s) []) as (extra & E & Hs & _).
    rewrite E in Hk. simpl in Hk.
    assert (Hal : k ∈ Charts.defaultAliases s)
      by (by eapply elem_of_sublist).
    split_and!; [done|by unfold ChartKeys.buildData; rewrite length_fmap|].
    intros Hne i r Hr. unfold ChartKeys.buildData.
    rewrite list_lookup_fmap, Hr. simpl. f_equal.
    unfold ChartKeys.point, rawValue.
    destruct (ChartKeys.top r k) as [n|]; simpl; [by rewrite (Hnorm s)|].
    destruct (ChartKeys.nested r k) as [n|]; simpl; [by rewrite (Hnorm s)|done].
  - intros numeral. reflexivity.
  - reflexivity.
Qed.

Lemma C4_unit_scaling_witness :
  shown (Telemetry.TelemetryColumn noNumeral Telemetry.hum2
           [("hum2", Telemetry.JNum 6261)]) = Some (6261 / 100)%float ∧
  shown (Telemetry.TelemetryColumn noNumeral Telemetry.iM1
           [("I_M1", Telemetry.JNum 120)]) = Some 120%float ∧
  Charts.normalizeValue "v_batt" 7400 = (7400 / 1000)%float ∧
  Telemetry.TelemetryColumn noNumeral Telemetry.pM2
    [("p_m2", Telemetry.JNum 950)] = Telemetry.Fixed 950 2 (Some "mW") ∧
  [Some (2845 / 100)%float; None; Some (2900 / 100)%float] !! 2
  = Some (plottedScale Charts.temperature
            <$> rawValue "temp1"
                  [("data", Json.Obj [("temp1", Json.Num 2900)])]).
Proof.
  destruct C4_unit_scaling as (H1 & _ & H3 & _ & _ & _ & H7 & _ & _ & H10 & _).
  split_and!.
  - apply (H1 noNumeral Telemetry.hum2 [("hum2", Telemetry.JNum 6261)]);
      reflexivity.
  - apply (H1 noNumeral Telemetry.iM1 [("I_M1", Telemetry.JNum 120)]);
      reflexivity.
  - apply (H7 7400%float "v_batt"); [|discriminate].
    simpl. do 3 right. left.
  - destruct (H3 noNumeral Telemetry.pM2 [("p_m2", Telemetry.JNum 950)]
                 950%float eq_refl) as (_ & Hq & _).
    apply (Hq Power). reflexivity.
  - destruct (H10 [[("temp1", Json.Num 2845)];
                   [("dist1", Json.Num 12)];
                   [("data", Json.Obj [("temp1", Json.Num 2900)])]]
                  Charts.temperature "temp1"
                  [Some (2845 / 100)%float; None; Some (2900 / 100)%float])
      as (_ & _ & Hpt).
    + vm_compute. left.
    + apply Hpt; [discriminate|reflexivity].
Defined.


(* ===================================================================== *)
(** * Further properties of the decoders *)
(* ===================================================================== *)

(** ** Matrix lines: which decode, and what the decoded grid holds *)

Section MatrixLineFacts.

Import Grid.

Lemma string_app_assoc (a b c : string) : (a +:+ b) +:+ c = a +:+ b +:+ c.
Proof.
  induction a as [|x a IH]; [done|]. by rewrite !string_app_cons, IH.
Qed.

Lemma prefix_intro (p b : string) : String.prefix p (p +:+ b) = true.
Proof.
  induction p as [|c p IH]; [by destruct b|].
  rewrite string_app_cons. simpl. by destruct (ascii_dec c c).
Qed.

Lemma includes_intro (p a b : string) : Js.includes p (a +:+ p +:+ b) = true.
Proof.
  induction a as [|c a IH].
  - change ("" +:+ p +:+ b) with (p +:+ b).
    destruct (p +:+ b) eqn:E; cbn [Js.includes]; rewrite <- E, prefix_intro; done.
  - rewrite string_app_cons. cbn [Js.includes]. rewrite IH. apply orb_true_r.
Qed.

(** A split with at least two tokens comes from a string with a separator
    after the first token. *)
Lemma split_cons_inv (sep : ascii) (s a : string) (rest : list string) :
  Js.split sep s = a :: rest → rest ≠ [] →
  ∃ s', s = a +:+ String sep s' ∧ Js.split sep s' = rest.
Proof.
  unfold Js.split. revert a rest. induction s as [|c s IH]; intros a rest.
  - simpl. by intros [= <- <-].
  - cbn [Js.split_go]. destruct (Js.split_go sep s) as [t ts] eqn:E.
    destruct (Ascii.eqb_spec c sep) as [->|NE].
    + intros [= <- <-] _. exists s. by rewrite E.
    + intros [= <- <-] Hne. destruct (IH t ts eq_refl Hne) as (s' & -> & Hs').
      exists s'. by rewrite string_app_cons.
Qed.

Lemma indexOf_found (x : string) (l : list string) (i : nat) :
  Js.indexOf x l = Some i →
  ∃ pre post, l = pre ++ x :: post ∧ length pre = i ∧ x ∉ pre.
Proof.
  revert i. induction l as [|y l IH]; intros i; [done|]. simpl.
  destruct (String.eqb_spec y x) as [->|NE].
  - intros [= <-]. exists [], l. split_and!; [done..|]. apply not_elem_of_nil.
  - destruct (Js.indexOf x l) as [j|]; [|done]. intros [= <-].
    destruct (IH j eq_refl) as (pre & post & -> & <- & Hni).
    exists (y :: pre), post. split_and!; [done..|].
    by intros [?|?]%elem_of_cons.
Qed.

Lemma tokens_after_M (s : string) (i : nat) :
  Js.indexOf "M" (Js.split "," s) = Some i →
  drop (S i) (Js.split "," s) ≠ [] →
  Js.startsWith "M," s = true ∨ Js.includes ",M," s = true.
Proof.
  revert s. induction i as [|i IH]; intros s Hi Hd.
  - destruct (Js.split "," s) as [|a rest] eqn:E; [done|]. simpl in Hi, Hd.
    destruct (String.eqb_spec a "M") as [->|]; [|by destruct (Js.indexOf _ _)].
    destruct (split_cons_inv _ _ _ _ E Hd) as (s' & -> & _).
    left. apply (prefix_intro "M," s').
  - destruct (Js.split "," s) as [|a rest] eqn:E; [done|]. simpl in Hi, Hd.
    destruct (String.eqb a "M"); [done|].
    destruct (Js.indexOf "M" rest) as [j|] eqn:Hj; [|done].
    simplify_eq/=.
    assert (rest ≠ []) as Hne by (by intros ->).
    destruct (split_cons_inv _ _ _ _ E Hne) as (s' & -> & Hs').
    right. rewrite <- Hs' in Hj, Hd.
    destruct (IH s' Hj Hd) as [(b & ->)%prefix_inv|(x & y & ->)%includes_inv].
    + apply (includes_intro ",M," a b).
    + change (a +:+ String "," (x +:+ ",M," +:+ y))
        with (a +:+ "," +:+ (x +:+ ",M," +:+ y)).
      rewrite <- !string_app_assoc, (string_app_assoc _ ",M," y).
      apply includes_intro.
Qed.

Lemma rowTokensOf_prefix_M (line : string) :
  Js.startsWith "M," line = true → is_Some (rowTokensOf line).
Proof.
  intros (b & ->)%prefix_inv. unfold rowTokensOf.
  change ("M," +:+ b) with ("M" +:+ String "," b).
  rewrite split_app_sep. change (Js.split "," "M") with ["M"]. simpl.
  pose proof (split_nonempty "," b).
  destruct (Js.split "," b); [done|]. simpl. by eexists.
Qed.

Lemma rowTokensOf_Some_inv (line : string) (toks : list string) :
  rowTokensOf line = Some toks →
  Js.startsWith "M," line = true ∨ Js.includes ",M," line = true.
Proof.
  unfold rowTokensOf.
  destruct (Js.indexOf "M" (Js.split "," line)) as [i|] eqn:Hi; [|done].
  destruct (Nat.eqb_spec (length (drop (S i) (Js.split "," line))) 0) as [|Hl];
    [done|].
  intros _. apply (tokens_after_M line i Hi). intros E. by rewrite E in Hl.
Qed.

Lemma decodeRow_lookup (tok : string) (c : nat) (cell : Cell) :
  decodeRow tok !! c = Some cell →
  visited cell = false ∧
  (obstacle cell = true ↔ Js.chars (Js.trim tok) !! c = Some "1"%char).
Proof.
  unfold decodeRow. destruct (String.eqb_spec (Js.trim tok) "") as [E|NE].
  - rewrite E. intros Hc. apply list_elem_of_lookup_2 in Hc.
    apply elem_of_replicate in Hc as [-> _]. by split.
  - rewrite list_lookup_fmap. destruct (Js.chars (Js.trim tok) !! c) as [ch|]; [|done].
    intros [= <-]. split; [done|]. simpl.
    destruct (Ascii.eqb_spec ch "1"); split; congruence.
Qed.

End MatrixLineFacts.

(** X1. [parseMatrixLine] returns a result exactly for the lines that
    start with ["M,"] or contain [",M,"]; on any other line [applyMatrix]
    leaves the component state as it is. *)
Theorem X1_matrix_line_decodes_iff (line : string) :
  (is_Some (Grid.parseMatrixLine line) ↔
   Js.startsWith "M," line = true ∨ Js.includes ",M," line = true) ∧
  (Js.startsWith "M," line = false → Js.includes ",M," line = false →
   ∀ st, Grid.applyMatrix line st = st).
Proof.
  assert (Hiff : is_Some (Grid.parseMatrixLine line) ↔
     Js.startsWith "M," line = true ∨ Js.includes ",M," line = true).
  { unfold Grid.parseMatrixLine. rewrite fmap_is_Some. split.
    - intros [toks Ht]. by eapply rowTokensOf_Some_inv.
    - intros [H|H]; [by apply rowTokensOf_prefix_M|].
      destruct (rowTokensOf_accepted line H) as (toks & -> & _). by eexists. }
  split; [done|]. intros H1 H2 st. unfold Grid.applyMatrix.
  destruct (Grid.parseMatrixLine line) as [parsed|]; [|done].
  destruct (proj1 Hiff (mk_is_Some _ _ eq_refl)); congruence.
Qed.

Lemma X1_matrix_line_decodes_iff_witness :
  (is_Some (Grid.parseMatrixLine "RECV_ROVER_-45,-44,N,0000000000") ↔
   Js.startsWith "M," "RECV_ROVER_-45,-44,N,0000000000" = true ∨
   Js.includes ",M," "RECV_ROVER_-45,-44,N,0000000000" = true) ∧
  Grid.applyMatrix "RECV_ROVER_-45,-44,N,0000000000" moved_state = moved_state.
Proof.
  destruct (X1_matrix_line_decodes_iff "RECV_ROVER_-45,-44,N,0000000000")
    as [H1 H2].
  split; [exact H1|]. apply H2; reflexivity.
Defined.

(** X2. Every cell of a decoded grid is unvisited, and it is an obstacle
    exactly when the character it was read from is '1': the character at
    its column of the trimmed token [numRows - 1 - v] of its display row
    [v]. *)
Theorem X2_decoded_cells (toks : list string) (v c : nat)
    (cells : list Grid.Cell) (cell : Grid.Cell) :
  Grid.grid (Grid.parseRows toks) !! v = Some cells →
  cells !! c = Some cell →
  Grid.visited cell = false ∧
  (Grid.obstacle cell = true ↔
   Js.chars (Js.trim (sourceToken toks v)) !! c = Some "1"%char).
Proof.
  intros Hv Hc.
  assert (v < Nat.min (length toks) Grid.GRID_ROWS) as Hlt.
  { apply lookup_lt_Some in Hv. by rewrite parseRows_length in Hv. }
  rewrite parseRows_row in Hv by done. simplify_eq.
  by apply decodeRow_lookup.
Qed.

Lemma X2_decoded_cells_witness :
  Grid.visited {| Grid.visited := false; Grid.obstacle := true |} = false ∧
  (Grid.obstacle {| Grid.visited := false; Grid.obstacle := true |} = true ↔
   Js.chars (Js.trim (sourceToken [" 2000 "; "0100"] 0)) !! 1 = Some "1"%char).
Proof.
  apply (X2_decoded_cells [" 2000 "; "0100"] 0 1
           (decodeRow "0100")); reflexivity.
Defined.

(** X3. The pose that [parseMatrixLine] returns always points into the
    grid it returns, at a cell that is not an obstacle. *)
Theorem X3_pose_inside_grid (line : string) (parsed : Grid.Parsed)
    (p : Grid.RoverPose) :
  Grid.parseMatrixLine line = Some parsed →
  Grid.pose parsed = Some p →
  ∃ cells, Grid.grid parsed !! Grid.row p = Some cells ∧
           cells !! Grid.col p = Some Grid.emptyCell.
Proof.
  unfold Grid.parseMatrixLine. intros Hp Hpose.
  destruct (Grid.rowTokensOf line) as [toks|]; [|done]. simplify_eq/=.
  pose proof (parseRows_pose toks) as H. rewrite Hpose in H.
  destruct H as [(Hr & ch & Hl & Hd & _) _].
  exists (decodeRow (sourceToken toks (Grid.row p))). split.
  - by rewrite parseRows_row.
  - unfold decodeRow.
    destruct (String.eqb_spec (Js.trim (sourceToken toks (Grid.row p))) "") as [E|_].
    + by rewrite E in Hl.
    + rewrite list_lookup_fmap, Hl. simpl. f_equal.
      destruct ch as [[] [] [] [] [] [] [] []]; by try discriminate Hd.
Qed.

Lemma X3_pose_inside_grid_witness :
  ∃ cells,
    [decodeRow "0002000000"; decodeRow "0000000000"] !! 0 = Some cells ∧
    cells !! 3 = Some Grid.emptyCell.
Proof.
  apply (X3_pose_inside_grid "RECV_ROVER_x,M,0000000000,0002000000"
           {| Grid.grid := [decodeRow "0002000000"; decodeRow "0000000000"];
              Grid.pose := Some {| Grid.row := 0; Grid.col := 3;
                                   Grid.dir := Grid.DirN |} |}
           {| Grid.row := 0; Grid.col := 3; Grid.dir := Grid.DirN |});
    reflexivity.
Defined.

(** X4. After a sequence of matrix lines has been applied in order, the
    grid is the one decoded from the last line that decodes and the pose is
    the one of the last line that carries a rover digit; when there is no
    such line the grid, or the pose, is the one held before.  In
    particular applying a line twice is the same as applying it once. *)
Theorem X4_applyMatrix_most_recent (lines : list string) (st : Grid.State) :
  Grid.st_grid (foldl (λ s l, Grid.applyMatrix l s) st lines)
  = from_option Grid.grid (Grid.st_grid st)
      (last (omap Grid.parseMatrixLine lines)) ∧
  Grid.st_pose (foldl (λ s l, Grid.applyMatrix l s) st lines)
  = default (Grid.st_pose st)
      (last (omap (λ l, Grid.parseMatrixLine l ≫= Grid.pose) lines)) ∧
  Grid.st_poseRef (foldl (λ s l, Grid.applyMatrix l s) st lines)
  = default (Grid.st_poseRef st)
      (last (omap (λ l, Grid.parseMatrixLine l ≫= Grid.pose) lines)) ∧
  (∀ line, Grid.applyMatrix line (Grid.applyMatrix line st)
           = Grid.applyMatrix line st).
Proof.
  split_and!; [| | |].
  1-3: revert st; induction lines as [|l lines IH] using rev_ind; intros st;
    [done|];
    rewrite foldl_app, !omap_app; simpl; unfold Grid.applyMatrix at 1;
    destruct (Grid.parseMatrixLine l) as [parsed|]; simpl;
    [destruct (Grid.pose parsed); simpl; rewrite ?last_snoc, ?app_nil_r; try done;
     apply IH
    |rewrite !app_nil_r; apply IH].
  intros line. unfold Grid.applyMatrix.
  destruct (Grid.parseMatrixLine line) as [parsed|]; [|done].
  by destruct (Grid.pose parsed).
Qed.

(** ** The serial handler: what its state always satisfies *)

Section HandlerInvariants.

Import Feed.

Lemma keep_last_id {A} (n : nat) (xs : list A) :
  length xs ≤ n → keep_last n xs = xs.
Proof. intros H. unfold keep_last. by replace (length xs - n) with 0 by lia. Qed.

Lemma keep_last_length {A} (n : nat) (xs : list A) :
  length (keep_last n xs) = Nat.min n (length xs).
Proof. unfold keep_last. rewrite length_drop. lia. Qed.

Lemma keep_last_keep_last {A} (m n : nat) (xs : list A) :
  m ≤ n → keep_last m (keep_last n xs) = keep_last m xs.
Proof.
  intros H. unfold keep_last. rewrite length_drop, drop_drop. f_equal. lia.
Qed.

Lemma keep_last_fmap {A B} (f : A → B) (n : nat) (xs : list A) :
  f <$> keep_last n xs = keep_last n (f <$> xs).
Proof. unfold keep_last. by rewrite fmap_drop, length_fmap. Qed.

Lemma trimEnd_idem (s : string) : Js.trimEnd (Js.trimEnd s) = Js.trimEnd s.
Proof.
  induction s as [|c s IH]; [done|]. cbn [Js.trimEnd].
  destruct (Js.trimEnd s) as [|c' s'] eqn:E.
  - destruct (Js.isWhiteSpace c) eqn:Hc; [done|]. simpl. by rewrite Hc.
  - cbn [Js.trimEnd]. cbn [Js.trimEnd] in IH. by rewrite IH.
Qed.

Lemma trimStart_trimEnd (s : string) :
  Js.trimStart (Js.trimEnd (Js.trimStart s)) = Js.trimEnd (Js.trimStart s).
Proof.
  induction s as [|c s IH]; [done|]. cbn [Js.trimStart].
  destruct (Js.isWhiteSpace c) eqn:Hc; [done|]. cbn [Js.trimEnd].
  destruct (Js.trimEnd s); rewrite ?Hc; simpl; by rewrite Hc.
Qed.

(** Trimming twice is trimming once. *)
Lemma trim_idem (s : string) : Js.trim (Js.trim s) = Js.trim s.
Proof. unfold Js.trim. by rewrite trimStart_trimEnd, trimEnd_idem. Qed.

Lemma run_snoc (msgs : list (float * string)) (ts : float) (text : string)
    (st : State) :
  (run (msgs ++ [(ts, text)]) st).1 = (handleSerialIn ts text (run msgs st).1).1.
Proof. by rewrite run_app, run_cons. Qed.

End HandlerInvariants.

(** X5. The console is a bounded buffer in arrival order: after any
    stream of serial lines handled from a state whose console holds at
    most 2000 lines, it holds exactly the last 2000 of the lines held
    before followed by the lines of the stream, and never more than 2000;
    the serial monitor, which shows the last 800 lines it is handed, shows
    the texts of the last 800 of them. *)
Theorem X5_console_holds_last_lines (msgs : list (float * string))
    (st : Feed.State) :
  length (Feed.consoleLines st) ≤ Feed.CONSOLE_CAP →
  Feed.consoleLines (Feed.run msgs st).1
  = keep_last Feed.CONSOLE_CAP (Feed.consoleLines st ++ (mkLine <$> msgs)) ∧
  length (Feed.consoleLines (Feed.run msgs st).1) ≤ Feed.CONSOLE_CAP ∧
  SerialFooter.shownLines
    (AppView.consoleTextLines (Feed.consoleLines (Feed.run msgs st).1))
  = keep_last SerialFooter.SHOWN
      ((Feed.text <$> Feed.consoleLines st) ++ msgs.*2).
Proof.
  intros Hlen.
  assert (E : Feed.consoleLines (Feed.run msgs st).1
    = keep_last Feed.CONSOLE_CAP (Feed.consoleLines st ++ (mkLine <$> msgs))).
  { rewrite run_console. rewrite <- (keep_last_id Feed.CONSOLE_CAP _ Hlen) at 1.
    apply foldl_pushConsole. }
  split_and!; [done| |].
  - rewrite E, keep_last_length. lia.
  - unfold SerialFooter.shownLines, AppView.consoleTextLines.
    fold (keep_last SerialFooter.SHOWN
            (App.getLineText <$> Feed.consoleLines (Feed.run msgs st).1)).
    rewrite E, keep_last_fmap, keep_last_keep_last, fmap_app
      by (unfold SerialFooter.SHOWN, Feed.CONSOLE_CAP; lia).
    do 2 f_equal. rewrite <- list_fmap_compose. by apply list_fmap_ext.
Qed.

Lemma X5_console_holds_last_lines_witness :
  Feed.consoleLines
    (Feed.run [(1%float, "a"); (2%float, "b")] Feed.initialState).1
  = keep_last Feed.CONSOLE_CAP
      (Feed.consoleLines Feed.initialState
       ++ (mkLine <$> [(1%float, "a"); (2%float, "b")])) ∧
  length (Feed.consoleLines
            (Feed.run [(1%float, "a"); (2%float, "b")] Feed.initialState).1)
  ≤ Feed.CONSOLE_CAP ∧
  SerialFooter.shownLines
    (AppView.consoleTextLines
       (Feed.consoleLines
          (Feed.run [(1%float, "a"); (2%float, "b")] Feed.initialState).1))
  = keep_last SerialFooter.SHOWN
      ((Feed.text <$> Feed.consoleLines Feed.initialState)
       ++ [(1%float, "a"); (2%float, "b")].*2).
Proof.
  apply (X5_console_holds_last_lines [(1%float, "a"); (2%float, "b")]
           Feed.initialState).
  simpl. lia.
Defined.

(** X6. The matrix line stored by the handler is always one of the lines
    received, starts with ["RECV_ROVER_"], contains [",M,"], is not empty,
    and decodes: the grid component never receives a line that
    [parseMatrixLine] rejects. *)
Theorem X6_stored_matrix_line_decodes (msgs : list (float * string))
    (l : string) :
  Feed.lastMatrixLine (Feed.run msgs Feed.initialState).1 = Some l →
  l ∈ msgs.*2 ∧
  Js.startsWith "RECV_ROVER_" l = true ∧ Js.includes ",M," l = true ∧
  l ≠ "" ∧ is_Some (Grid.parseMatrixLine l).
Proof.
  assert (Hgen : ∀ st,
    Feed.lastMatrixLine (Feed.run msgs st).1 = Some l →
    Feed.lastMatrixLine st = Some l ∨
    (l ∈ msgs.*2 ∧ Js.startsWith "RECV_ROVER_" l = true ∧
     Js.includes ",M," l = true)).
  { induction msgs as [|[ts text] msgs IH] using rev_ind; intros st; [by left|].
    rewrite run_snoc, fmap_app. simpl.
    assert (Hstep : ∀ s,
      Feed.lastMatrixLine (Feed.handleSerialIn ts text s).1 = Some l →
      Feed.lastMatrixLine s = Some l ∨
      (text = l ∧ Js.startsWith "RECV_ROVER_" l = true ∧
       Js.includes ",M," l = true)).
    { intros s. unfold Feed.handleSerialIn.
      destruct (String.eqb text Feed.B64_IMAGE_START); [by left|].
      destruct (String.eqb text Feed.B64_IMAGE_END); [by left|].
      destruct (Feed.pending (Feed.imageCapture s)); [by left|].
      destruct (Js.startsWith "RECV_ROVER_" text && Js.includes ",M," text)
        eqn:Hacc; [|by left].
      simpl. intros [= ->]. apply andb_true_iff in Hacc as [? ?]. by right. }
    intros Hl. destruct (Hstep _ Hl) as [Hold|(-> & ? & ?)].
    - destruct (IH st Hold) as [?|(? & ? & ?)]; [by left|].
      right. split_and!; [|done..]. apply elem_of_app. by left.
    - right. split_and!; [|done..]. apply elem_of_app. right.
      by apply list_elem_of_singleton. }
  intros H. destruct (Hgen _ H) as [?|(H1 & H2 & H3)]; [done|].
  split_and!; [done..| |].
  - intros ->. done.
  - destruct (rowTokensOf_accepted l H3) as (toks & Ht & _).
    unfold Grid.parseMatrixLine. rewrite Ht. by eexists.
Qed.

Lemma X6_stored_matrix_line_decodes_witness :
  "RECV_ROVER_x,M,01" ∈ [(0%float, "RECV_ROVER_x,M,01"); (1%float, "M,1")].*2 ∧
  Js.startsWith "RECV_ROVER_" "RECV_ROVER_x,M,01" = true ∧
  Js.includes ",M," "RECV_ROVER_x,M,01" = true ∧
  "RECV_ROVER_x,M,01" ≠ "" ∧
  is_Some (Grid.parseMatrixLine "RECV_ROVER_x,M,01").
Proof.
  apply (X6_stored_matrix_line_decodes
           [(0%float, "RECV_ROVER_x,M,01"); (1%float, "M,1")]).
  reflexivity.
Defined.

(** X7. Whatever serial lines have been handled since the initial state,
    an idle capture holds no chunk, and every chunk held is a received
    line after trimming, so it has no white space at either end. *)
Theorem X7_capture_invariants (msgs : list (float * string)) :
  (Feed.pending (Feed.imageCapture (Feed.run msgs Feed.initialState).1) = false →
   Feed.chunks (Feed.imageCapture (Feed.run msgs Feed.initialState).1) = []) ∧
  Forall (λ c, Js.trim c = c ∧ c ∈ Js.trim <$> msgs.*2)
    (Feed.chunks (Feed.imageCapture (Feed.run msgs Feed.initialState).1)).
Proof.
  induction msgs as [|[ts text] msgs [IH1 IH2]] using rev_ind; [by split|].
  rewrite run_snoc, !fmap_app. simpl.
  set (st := (Feed.run msgs Feed.initialState).1) in *.
  assert (IH2' : Forall (λ c, Js.trim c = c ∧
                   c ∈ (Js.trim <$> msgs.*2) ++ [Js.trim text])
                 (Feed.chunks (Feed.imageCapture st))).
  { eapply Forall_impl; [done|]. intros c [? ?]. split; [done|].
    apply elem_of_app. by left. }
  unfold Feed.handleSerialIn.
  destruct (String.eqb text Feed.B64_IMAGE_START); [by split|].
  destruct (String.eqb text Feed.B64_IMAGE_END); [by split|].
  destruct (Feed.pending (Feed.imageCapture st)) eqn:Hp.
  - split; [done|]. simpl. apply Forall_app. split; [done|].
    constructor; [|done]. split; [apply trim_idem|].
    apply elem_of_app. right. by apply list_elem_of_singleton.
  - destruct (Js.startsWith "RECV_ROVER_" text && Js.includes ",M," text);
      simpl; rewrite Hp; by split.
Qed.

(** ** The image recomputed from the console *)

Section ExtractFacts.

Import App.

Lemma join_nonempty (l : list string) :
  l ≠ [] → Forall (λ s, s ≠ "") l → Js.join l ≠ "".
Proof.
  destruct l as [|x l]; [done|]. intros _ [Hx _]%Forall_cons.
  rewrite join_cons. by destruct x.
Qed.

Lemma scanLine_nonempty (a : Scan) (item : Feed.ConsoleLine) :
  scan_nonempty a → scan_nonempty (scanLine a item).
Proof.
  intros [Hb Hl]. unfold scanLine.
  destruct (String.eqb_spec (Js.trim (getLineText item)) "") as [|NE];
    [by split|].
  destruct (String.eqb _ "B64_IMAGE_START"); [by split|].
  destruct (String.eqb _ "B64_IMAGE_END").
  - split; [done|]. simpl. destruct (capturing a); simpl; [|done].
    destruct (buffer a) as [|x l] eqn:E; simpl; [done|].
    intros p [= <-]. by apply join_nonempty.
  - destruct (capturing a); [|by split]. split; [|done]. simpl.
    apply Forall_app. split; [done|]. by constructor.
Qed.

Lemma scan_lines_nonempty (lines : list Feed.ConsoleLine) (a : Scan) :
  scan_nonempty a → scan_nonempty (foldl scanLine a lines).
Proof.
  revert a. induction lines as [|l lines IH]; intros a Ha; [done|].
  simpl. by apply IH, scanLine_nonempty.
Qed.

(** Inside a block, the lines that are not markers fill the buffer with
    their trimmed texts, the blank ones left out. *)
Lemma scan_body (body : list Feed.ConsoleLine) (a : Scan) :
  capturing a = true →
  Forall (λ l, Js.trim (Feed.text l) ≠ "B64_IMAGE_START" ∧
               Js.trim (Feed.text l) ≠ "B64_IMAGE_END") body →
  foldl scanLine a body =
  {| capturing := true;
     buffer := buffer a
               ++ filter (λ s, s ≠ "") (Js.trim ∘ Feed.text <$> body);
     lastImage := lastImage a |}.
Proof.
  revert a. induction body as [|l body IH]; intros a Hc Hall.
  - simpl. rewrite app_nil_r. destruct a. by simplify_eq/=.
  - apply Forall_cons in Hall as [[Hs He] Hall]. simpl foldl.
    rewrite fmap_cons, filter_cons. unfold scanLine at 2, getLineText. simpl.
    destruct (String.eqb_spec (Js.trim (Feed.text l)) "") as [E|NE].
    + rewrite E. destruct (decide ("" ≠ "")); [done|]. by apply IH.
    + destruct (String.eqb_spec (Js.trim (Feed.text l)) "B64_IMAGE_START"); [done|].
      destruct (String.eqb_spec (Js.trim (Feed.text l)) "B64_IMAGE_END"); [done|].
      rewrite Hc. destruct (decide (Js.trim (Feed.text l) ≠ "")); [|done].
      rewrite IH by done. simpl. by rewrite <- app_assoc.
Qed.

End ExtractFacts.

(** X8. A payload recomputed from the console is never empty, so the
    image handed to the visual column is defined exactly when a payload is
    found, and is that payload behind the JPEG data-URL prefix. *)
Theorem X8_recomputed_payload_not_empty (lines : list Feed.ConsoleLine) :
  (∀ p, App.extractLastImageFromConsole lines = Some p → p ≠ "") ∧
  AppView.latestImageDataUrl lines
  = Feed.dataUrl <$> App.extractLastImageFromConsole lines.
Proof.
  assert (H : ∀ p, App.extractLastImageFromConsole lines = Some p → p ≠ "").
  { intros p. unfold App.extractLastImageFromConsole.
    apply (scan_lines_nonempty lines App.scanStart). by split. }
  split; [done|]. unfold AppView.latestImageDataUrl.
  destruct (App.extractLastImageFromConsole lines) as [p|]; [|done].
  destruct (String.eqb_spec p "") as [->|_]; [by destruct (H "")|done].
Qed.

(** X9. When the console ends with a block, that is a line that trims to
    [B64_IMAGE_START], lines that trim to neither marker, and a line that
    trims to [B64_IMAGE_END], the recomputed payload is the concatenation
    of the trimmed lines of the block that are not blank; when all of them
    are blank the block is ignored and the payload is the one found in the
    lines before it. *)
Theorem X9_recomputed_payload_of_last_block
    (before body : list Feed.ConsoleLine) (s e : Feed.ConsoleLine) :
  Js.trim (Feed.text s) = "B64_IMAGE_START" →
  Js.trim (Feed.text e) = "B64_IMAGE_END" →
  Forall (λ l, Js.trim (Feed.text l) ≠ "B64_IMAGE_START" ∧
               Js.trim (Feed.text l) ≠ "B64_IMAGE_END") body →
  App.extractLastImageFromConsole (before ++ s :: body ++ [e]) =
  match filter (λ s, s ≠ "") (Js.trim ∘ Feed.text <$> body) with
  | [] => App.extractLastImageFromConsole before
  | chunks => Some (Js.join chunks)
  end.
Proof.
  intros Hs He Hall. unfold App.extractLastImageFromConsole.
  rewrite foldl_app. simpl foldl. set (a := foldl App.scanLine App.scanStart before).
  rewrite foldl_app. unfold App.scanLine at 3, App.getLineText. rewrite Hs.
  cbn [String.eqb Ascii.eqb Bool.eqb]. cbn iota.
  rewrite (scan_body body
             {| App.capturing := true; App.buffer := [];
                App.lastImage := App.lastImage a |} eq_refl Hall).
  simpl foldl.
  unfold App.scanLine, App.getLineText. rewrite He.
  cbn [String.eqb Ascii.eqb Bool.eqb]. cbn iota. simpl.
  by destruct (filter _ _).
Qed.

Lemma X9_recomputed_payload_of_last_block_witness :
  App.extractLastImageFromConsole
    ([mkLine (0%float, "noise")]
     ++ mkLine (1%float, " B64_IMAGE_START")
        :: [mkLine (2%float, " aGVs "); mkLine (3%float, ""); mkLine (4%float, "bG8=")]
        ++ [mkLine (5%float, "B64_IMAGE_END ")])
  = Some "aGVsbG8=".
Proof.
  apply (X9_recomputed_payload_of_last_block
           [mkLine (0%float, "noise")]
           [mkLine (2%float, " aGVs "); mkLine (3%float, ""); mkLine (4%float, "bG8=")]
           (mkLine (1%float, " B64_IMAGE_START"))
           (mkLine (5%float, "B64_IMAGE_END "))).
  - reflexivity.
  - reflexivity.
  - repeat constructor; vm_compute; congruence.
Defined.

(** ** Field resolution: what is found, and for which category *)

Section ResolutionFacts.

Import Telemetry.

Lemma firstAlias_Some (P : string → bool) (names : list string) (n : string) :
  firstAlias P names = Some n → n ∈ names ∧ P n = true.
Proof.
  induction names as [|m names IH]; [done|]. simpl.
  destruct (P m) eqn:E.
  - intros [= <-]. split; [by left|done].
  - intros [? ?]%IH. split; [by right|done].
Qed.

Lemma firstAlias_None (P : string → bool) (names : list string) :
  firstAlias P names = None ↔ ∀ n, n ∈ names → P n = false.
Proof.
  induction names as [|m names IH]; simpl.
  - split; [by intros _ n ?%elem_of_nil|done].
  - destruct (P m) eqn:E.
    + split; [done|]. intros H. rewrite H in E by left. done.
    + rewrite IH. split.
      * intros H n [->|?]%elem_of_cons; auto.
      * intros H n Hn. apply H. by right.
Qed.

Lemma get_elem_of (obj : Obj) (k : string) (v : JsValue) :
  get obj k = Some v → (k, v) ∈ obj.
Proof.
  induction obj as [|[k' v'] obj IH]; [done|]. simpl.
  destruct (String.eqb_spec k' k) as [->|_].
  - intros [= ->]. by left.
  - intros ?%IH. by right.
Qed.

Lemma get_is_Some (obj : Obj) (k : string) :
  is_Some (get obj k) ↔ k ∈ keys obj.
Proof.
  unfold keys. induction obj as [|[k' v'] obj IH]; simpl.
  - split; [by intros [? ?]|by intros ?%elem_of_nil].
  - destruct (String.eqb_spec k' k) as [->|NE].
    + split; [by left|by eexists].
    + rewrite IH. split; [by right|]. by intros [?|?]%elem_of_cons.
Qed.

Lemma lastKey_Some (f : string → string) (obj : Obj) (x k : string) :
  lastKey f obj x = Some k → k ∈ keys obj ∧ f k = x.
Proof.
  unfold lastKey. intros H%last_Some_elem_of.
  by apply list_elem_of_filter in H as [? ?].
Qed.

Lemma matchesUnder_false (f : string → string) (obj : Obj) (n : string) :
  matchesUnder f obj n = false ↔ ∀ k, k ∈ keys obj → f k ≠ f n.
Proof.
  unfold matchesUnder. rewrite bool_decide_eq_false, list_elem_of_fmap. split.
  - intros H k Hk E. apply H. by exists k.
  - intros H (k & E & Hk). by apply (H k).
Qed.

Lemma norm_of_lower (k n : string) :
  Js.toLowerCase k = Js.toLowerCase n → norm k = norm n.
Proof. unfold norm. by intros ->. Qed.

(** What [getField] returns is the value of a key that reads as one of the
    aliases once case and separators are dropped. *)
Lemma getField_sound (obj : Obj) (names : list string) (v : JsValue) :
  getField obj names = Some v →
  ∃ n k, n ∈ names ∧ (k, v) ∈ obj ∧ norm k = norm n.
Proof.
  unfold getField. rewrite exactPass_spec, !mapPass_spec.
  destruct (firstAlias (has obj) names) as [n|] eqn:H1; simpl.
  { apply firstAlias_Some in H1 as [Hn _]. intros Hv%get_elem_of.
    by exists n, n. }
  destruct (firstAlias (matchesUnder Js.toLowerCase obj) names) as [n|] eqn:H2.
  { apply firstAlias_Some in H2 as [Hn [k Hk]%lastKey_is_Some]. rewrite Hk.
    apply lastKey_Some in Hk as [_ Hk]. simpl. intros Hv%get_elem_of.
    exists n, k. split_and!; [done..|]. by apply norm_of_lower. }
  destruct (firstAlias (matchesUnder norm obj) names) as [n|] eqn:H3; [|done].
  apply firstAlias_Some in H3 as [Hn [k Hk]%lastKey_is_Some]. rewrite Hk.
  apply lastKey_Some in Hk as [_ Hk]. simpl. intros Hv%get_elem_of.
  by exists n, k.
Qed.

Lemma getField_None (obj : Obj) (names : list string) :
  getField obj names = None ↔
  ∀ n k, n ∈ names → k ∈ keys obj → norm k ≠ norm n.
Proof.
  split.
  - unfold getField. rewrite exactPass_spec, !mapPass_spec.
    destruct (firstAlias (has obj) names) as [n|] eqn:H1; simpl.
    { apply firstAlias_Some in H1 as [_ Hh]. unfold has in Hh.
      by destruct (get obj n). }
    destruct (firstAlias (matchesUnder Js.toLowerCase obj) names) as [n|] eqn:H2.
    { apply firstAlias_Some in H2 as [_ [k Hk]%lastKey_is_Some]. rewrite Hk.
      apply lastKey_Some in Hk as [[w Hw]%get_is_Some _]. simpl. by rewrite Hw. }
    destruct (firstAlias (matchesUnder norm obj) names) as [n|] eqn:H3.
    { apply firstAlias_Some in H3 as [_ [k Hk]%lastKey_is_Some]. rewrite Hk.
      apply lastKey_Some in Hk as [[w Hw]%get_is_Some _]. simpl. by rewrite Hw. }
    intros _ n k Hn Hk. rewrite firstAlias_None in H3.
    specialize (H3 n Hn). rewrite matchesUnder_false in H3. by apply H3.
  - intros Hno. destruct (getField obj names) as [v|] eqn:E; [|done].
    apply getField_sound in E as (n & k & Hn & Hk & Hnorm).
    destruct (Hno n k Hn); [|done].
    unfold keys. apply list_elem_of_fmap. by exists (k, v).
Qed.

(** No two categories share an alias, even up to case and separators. *)
Lemma NAMES_disjoint :
  Forall (λ c1, Forall (λ c2,
    Forall (λ n1, Forall (λ n2, norm n1 = norm n2 → c1 = c2) (NAMES c2))
           (NAMES c1)) allCategories) allCategories.
Proof. apply (bool_decide_unpack _). by vm_compute. Qed.

Lemma allCategories_complete (c : Category) : c ∈ allCategories.
Proof. unfold allCategories. destruct c; set_solver. Qed.

End ResolutionFacts.

(** X10. [getField] finds a value exactly when some key of the record
    equals some alias once both are lower-cased and stripped of white
    space, underscores and hyphens; the value found is the value of such a
    key of the record. *)
Theorem X10_getField_found_iff (obj : Telemetry.Obj) (names : list string) :
  (Telemetry.getField obj names = None ↔
   ∀ n k, n ∈ names → k ∈ Telemetry.keys obj →
          Telemetry.norm k ≠ Telemetry.norm n) ∧
  (∀ v, Telemetry.getField obj names = Some v →
        ∃ n k, n ∈ names ∧ (k, v) ∈ obj ∧ Telemetry.norm k = Telemetry.norm n).
Proof. split; [apply getField_None | apply getField_sound]. Qed.

(** X11. The alias tables of the telemetry column do not overlap: a key
    reads as an alias of at most one category, so one field of a record is
    never shown under two categories. *)
Theorem X11_categories_do_not_overlap (c1 c2 : Telemetry.Category) :
  (∀ n1 n2, n1 ∈ Telemetry.NAMES c1 → n2 ∈ Telemetry.NAMES c2 →
            Telemetry.norm n1 = Telemetry.norm n2 → c1 = c2) ∧
  (∀ k v, is_Some (Telemetry.getField [(k, v)] (Telemetry.NAMES c1)) →
          is_Some (Telemetry.getField [(k, v)] (Telemetry.NAMES c2)) →
          c1 = c2).
Proof.
  assert (H : ∀ n1 n2, n1 ∈ Telemetry.NAMES c1 → n2 ∈ Telemetry.NAMES c2 →
            Telemetry.norm n1 = Telemetry.norm n2 → c1 = c2).
  { intros n1 n2 H1 H2. pose proof NAMES_disjoint as Hd.
    rewrite Forall_forall in Hd. specialize (Hd c1 (allCategories_complete c1)).
    rewrite Forall_forall in Hd. specialize (Hd c2 (allCategories_complete c2)).
    rewrite Forall_forall in Hd. specialize (Hd n1 H1).
    rewrite Forall_forall in Hd. by apply Hd. }
  split; [done|]. intros k v [v1 H1] [v2 H2].
  apply getField_sound in H1 as (n1 & k1 & Hn1 & Hk1 & E1).
  apply getField_sound in H2 as (n2 & k2 & Hn2 & Hk2 & E2).
  apply list_elem_of_singleton in Hk1, Hk2. simplify_eq.
  apply (H n1 n2); [done..|]. congruence.
Qed.

(** ** The whole message handler *)

Section HookFacts.

Variable maxRows : nat.
Variable toText : Json.t → option string.

Lemma pushRow_keep_last (prev : list Json.t) (row : Json.t) :
  Hook.pushRow maxRows prev row = keep_last maxRows (prev ++ [row]).
Proof.
  unfold Hook.pushRow, keep_last.
  destruct (Nat.ltb_spec maxRows (length (prev ++ [row]))) as [H|H]; [done|].
  by replace (length (prev ++ [row]) - maxRows) with 0 by lia.
Qed.

Lemma handleMessage_rows (now : float) (parsed : option Json.t)
    (st : Hook.State) :
  Hook.rows (Hook.handleMessage maxRows toText now parsed st) =
  match carriedRow parsed with
  | Some row => keep_last maxRows (Hook.rows st ++ [row])
  | None => Hook.rows st
  end.
Proof.
  unfold Hook.handleMessage, carriedRow.
  destruct parsed as [[| | | | |fields]|]; simpl; try done;
    try (by repeat case_match).
  destruct (Json.lookup fields "type") as [[| | |ty| |]|]; try done.
  destruct (String.eqb_spec ty "telemetry") as [->|NE].
  - destruct (Json.coalesce (Json.lookup fields "row") (Json.lookup fields "data"))
      as [row|] eqn:E; [|done].
    destruct row as [|b|n|str|items|fs]; simpl; try done;
      try apply pushRow_keep_last.
    + destruct b; simpl; [apply pushRow_keep_last|done].
    + destruct (PrimFloat.is_zero n || PrimFloat.is_nan n); simpl;
        [done|apply pushRow_keep_last].
    + destruct (String.eqb str ""); simpl; [done|apply pushRow_keep_last].
  - by repeat case_match.
Qed.

(** The serial branch reads and writes the console, the capture and the
    matrix line without looking at the stored image. *)
Lemma handleSerialIn_serial_cells (ts : float) (text : string)
    (s1 s2 : Feed.State) :
  Feed.consoleLines s1 = Feed.consoleLines s2 →
  Feed.imageCapture s1 = Feed.imageCapture s2 →
  Feed.lastMatrixLine s1 = Feed.lastMatrixLine s2 →
  Feed.consoleLines (Feed.handleSerialIn ts text s1).1
  = Feed.consoleLines (Feed.handleSerialIn ts text s2).1 ∧
  Feed.imageCapture (Feed.handleSerialIn ts text s1).1
  = Feed.imageCapture (Feed.handleSerialIn ts text s2).1 ∧
  Feed.lastMatrixLine (Feed.handleSerialIn ts text s1).1
  = Feed.lastMatrixLine (Feed.handleSerialIn ts text s2).1.
Proof.
  intros E1 E2 E3. unfold Feed.handleSerialIn. rewrite E1, E2, E3.
  by repeat case_match.
Qed.

Lemma handleMessage_serial_cells (e : float * option Json.t)
    (st : Hook.State) (s : Feed.State) :
  Feed.consoleLines (Hook.feed st) = Feed.consoleLines s →
  Feed.imageCapture (Hook.feed st) = Feed.imageCapture s →
  Feed.lastMatrixLine (Hook.feed st) = Feed.lastMatrixLine s →
  let st' := Hook.handleMessage maxRows toText e.1 e.2 st in
  let s' := match serialOf toText e with
            | Some (ts, text) => (Feed.handleSerialIn ts text s).1
            | None => s
            end in
  Feed.consoleLines (Hook.feed st') = Feed.consoleLines s' ∧
  Feed.imageCapture (Hook.feed st') = Feed.imageCapture s' ∧
  Feed.lastMatrixLine (Hook.feed st') = Feed.lastMatrixLine s'.
Proof.
  intros E1 E2 E3. destruct e as [now parsed].
  unfold Hook.handleMessage, serialOf. simpl.
  destruct parsed as [[| | | | |fields]|]; simpl; try done;
    try (by repeat case_match).
  destruct (Json.lookup fields "type") as [[| | |ty| |]|]; try done.
  destruct (String.eqb_spec ty "telemetry") as [->|NE]; simpl.
  { by repeat case_match. }
  destruct (String.eqb_spec ty "serial_in") as [->|NE'].
  { simpl. fold (lineText toText fields).
    destruct (lineText toText fields) as [text|]; simpl; [|done].
    by apply handleSerialIn_serial_cells. }
  by repeat case_match.
Qed.

End HookFacts.

(** X12. The telemetry rows are a bounded buffer in arrival order: after
    any stream of frames, handled from a state holding at most [maxRows]
    rows, [rows] is exactly the last [maxRows] of the rows held before
    followed by the rows the telemetry frames of the stream carry, and
    never more than [maxRows]; frames of any other kind leave it as it
    is. *)
Theorem X12_rows_hold_last_rows (maxRows : nat)
    (toText : Json.t → option string)
    (events : list (float * option Json.t)) (st : Hook.State) :
  length (Hook.rows st) ≤ maxRows →
  Hook.rows (Hook.run maxRows toText events st)
  = keep_last maxRows (Hook.rows st ++ omap (λ e, carriedRow e.2) events) ∧
  length (Hook.rows (Hook.run maxRows toText events st)) ≤ maxRows.
Proof.
  intros Hlen.
  assert (E : Hook.rows (Hook.run maxRows toText events st)
    = keep_last maxRows (Hook.rows st ++ omap (λ e, carriedRow e.2) events)).
  { unfold Hook.run.
    induction events as [|[now parsed] events IH] using rev_ind.
    - simpl. by rewrite app_nil_r, keep_last_id.
    - rewrite foldl_app, omap_app. simpl. rewrite handleMessage_rows, IH.
      destruct (carriedRow parsed) as [row|]; simpl.
      + by rewrite keep_last_app_keep, <- app_assoc.
      + by rewrite app_nil_r. }
  split; [done|]. rewrite E, keep_last_length. lia.
Qed.

Lemma X12_rows_hold_last_rows_witness :
  Hook.rows
    (Hook.run 1 (λ _, None)
       [(0%float, Some (Json.Obj [("type", Json.Str "telemetry");
                                  ("row", Json.Obj [("temp1", Json.Num 2845)])]));
        (1%float, Some (Json.Obj [("type", Json.Str "telemetry");
                                  ("row", Json.Null);
                                  ("data", Json.Obj [("temp1", Json.Num 2900)])]));
        (2%float, Some (Json.Obj [("type", Json.Str "telemetry")]));
        (3%float, None)]
       Hook.initialState)
  = [Json.Obj [("temp1", Json.Num 2900)]].
Proof.
  destruct (X12_rows_hold_last_rows 1 (λ _, None)
    [(0%float, Some (Json.Obj [("type", Json.Str "telemetry");
                               ("row", Json.Obj [("temp1", Json.Num 2845)])]));
     (1%float, Some (Json.Obj [("type", Json.Str "telemetry");
                               ("row", Json.Null);
                               ("data", Json.Obj [("temp1", Json.Num 2900)])]));
     (2%float, Some (Json.Obj [("type", Json.Str "telemetry")]));
     (3%float, None)]
    Hook.initialState) as [E _]; [simpl; lia|].
  rewrite E. reflexivity.
Defined.

(** X13. Frames of other kinds do not disturb the serial branch: after
    any stream of frames, the console, the pending image capture and the
    stored matrix line are those the serial handler reaches on the
    [serial_in] frames of the stream alone, each with the text of its
    line, so telemetry and image frames that arrive in the middle of a
    capture leave it intact.  A [serial_in] frame whose line cannot be
    converted to text (the conversion throws) counts as dropped: it adds
    no console line and touches neither the capture nor the matrix
    line. *)
Theorem X13_serial_state_ignores_other_frames (maxRows : nat)
    (toText : Json.t → option string) (events : list (float * option Json.t))
    (st : Hook.State) :
  Feed.consoleLines (Hook.feed (Hook.run maxRows toText events st))
  = Feed.consoleLines
      (Feed.run (omap (serialOf toText) events) (Hook.feed st)).1 ∧
  Feed.imageCapture (Hook.feed (Hook.run maxRows toText events st))
  = Feed.imageCapture
      (Feed.run (omap (serialOf toText) events) (Hook.feed st)).1 ∧
  Feed.lastMatrixLine (Hook.feed (Hook.run maxRows toText events st))
  = Feed.lastMatrixLine
      (Feed.run (omap (serialOf toText) events) (Hook.feed st)).1.
Proof.
  unfold Hook.run.
  induction events as [|e events (IH1 & IH2 & IH3)] using rev_ind; [done|].
  rewrite foldl_app, omap_app. simpl.
  pose proof (handleMessage_serial_cells maxRows toText e _ _ IH1 IH2 IH3) as H.
  cbn zeta in H.
  destruct (serialOf toText e) as [[ts text]|]; simpl.
  - by rewrite run_snoc.
  - by rewrite app_nil_r.
Qed.

(** X14. A frame changes the state only if it is an object whose [type]
    is one of the strings [telemetry], [serial_in] and [image]: text that
    does not parse, values that are not objects, and objects with another
    type or none are dropped without any effect. *)
Theorem X14_other_frames_are_dropped (maxRows : nat)
    (toText : Json.t → option string)
    (now : float) (parsed : option Json.t) (st : Hook.State) :
  Hook.handleMessage maxRows toText now parsed st ≠ st →
  ∃ fields type,
    parsed = Some (Json.Obj fields) ∧
    Json.lookup fields "type" = Some (Json.Str type) ∧
    type ∈ ["telemetry"; "serial_in"; "image"].
Proof.
  unfold Hook.handleMessage.
  destruct parsed as [[| | | | |fields]|]; simpl; try done;
    try (by repeat case_match).
  destruct (Json.lookup fields "type") as [[| | |ty| |]|] eqn:Hty; try done.
  destruct (String.eqb_spec ty "telemetry") as [->|_].
  { intros _. exists fields, "telemetry". split_and!; [done..|]. by left. }
  destruct (String.eqb_spec ty "serial_in") as [->|_].
  { intros _. exists fields, "serial_in". split_and!; [done..|].
    right. by left. }
  destruct (String.eqb_spec ty "image") as [->|_]; [|done].
  intros _. exists fields, "image". split_and!; [done..|].
  right. right. by left.
Qed.

Lemma X14_other_frames_are_dropped_witness :
  ∃ fields type,
    Some (Json.Obj [("type", Json.Str "image"); ("b64", Json.Str "aGVsbG8=")])
    = Some (Json.Obj fields) ∧
    Json.lookup fields "type" = Some (Json.Str type) ∧
    type ∈ ["telemetry"; "serial_in"; "image"].
Proof.
  apply (X14_other_frames_are_dropped 900 (λ _, None) 0%float
           (Some (Json.Obj [("type", Json.Str "image");
                            ("b64", Json.Str "aGVsbG8=")]))
           Hook.initialState).
  discriminate.
Defined.

(** ** The record buffer of the telemetry column *)

Section RecordFacts.

Import UseTelemetry.

Variable maxBuffer : nat.
Variable JSON_parse : string → option Json.t.
Variable extractTs :
  list (string * Json.t) → list (string * Json.t) → Outcome (option string).

(** A frame is dropped, or a record numbered [seqRef + 1] is put in
    front, stamped with the extracted time or else the arrival time. *)
Lemma onmessage_cases (nowIso data : string) (st : State) :
  onmessage maxBuffer JSON_parse extractTs nowIso data st = st ∨
  ∃ obj p ts,
    JSON_parse (Js.trim data) = Some (Json.Obj obj) ∧
    selectPayload obj = Some p ∧
    (∃ extracted, extractTs obj p = Returned extracted ∧
                  (extracted = Some ts ∨ ts = nowIso)) ∧
    onmessage maxBuffer JSON_parse extractTs nowIso data st
    = stored maxBuffer ts p st.
Proof.
  unfold onmessage.
  destruct (negb _ && negb _); [by left|].
  destruct (JSON_parse (Js.trim data)) as [[| | | | |obj]|] eqn:Hp;
    simpl; try (by left).
  destruct (selectPayload obj) as [p|] eqn:Hs; [|by left].
  destruct (extractTs obj p) as [extracted|] eqn:He; [|by left].
  right. eexists obj, p, _. split_and!; [done|done| |reflexivity].
  exists extracted. split; [done|].
  destruct extracted as [s|]; [|by right].
  destruct (String.eqb s ""); [by right|by left].
Qed.

Lemma stored_numbered (ts : string) (p : list (string * Json.t)) (st : State) :
  numbered maxBuffer st → numbered maxBuffer (stored maxBuffer ts p st).
Proof.
  intros (Hseq & Hlen & Hle). split_and!; simpl.
  - intros i r [Hr Hi]%lookup_take_Some. destruct i as [|i]; simpl in Hr.
    + simplify_eq. simpl. lia.
    + apply Hseq in Hr. lia.
  - rewrite length_take. lia.
  - rewrite length_take. simpl. lia.
Qed.

Lemma step_numbered (st : State) (e : Event) :
  numbered maxBuffer st →
  numbered maxBuffer (step maxBuffer JSON_parse extractTs st e).
Proof.
  intros H. destruct e as [nowIso data|]; simpl.
  - destruct (onmessage_cases nowIso data st) as [->|(obj & p & ts & _ & _ & _ & ->)];
      [done|by apply stored_numbered].
  - destruct H as (Hseq & Hlen & Hle). split_and!; simpl; [done|lia|lia].
Qed.

Lemma run_numbered (events : list Event) (st : State) :
  numbered maxBuffer st →
  numbered maxBuffer (foldl (step maxBuffer JSON_parse extractTs) st events).
Proof.
  intros H. induction events as [|e events IH] using rev_ind; [done|].
  rewrite foldl_app. simpl. by apply step_numbered.
Qed.

Lemma step_continues (earlier st : State) (e : Event) :
  continues earlier st →
  continues earlier (step maxBuffer JSON_parse extractTs st e).
Proof.
  intros [Hle Hrec]. destruct e as [nowIso data|]; simpl.
  - destruct (onmessage_cases nowIso data st) as [->|(obj & p & ts & _ & _ & _ & ->)];
      [done|].
    split; simpl; [lia|].
    intros r Hr%subseteq_take. apply elem_of_cons in Hr as [->|Hr].
    + simpl. right. lia.
    + destruct (Hrec r Hr) as [?|?]; [by left|right; lia].
  - split; simpl; [done|]. by intros r ?%elem_of_nil.
Qed.

Lemma run_continues (events : list Event) (earlier : State) :
  continues earlier
    (foldl (step maxBuffer JSON_parse extractTs) earlier events).
Proof.
  induction events as [|e events IH] using rev_ind.
  - split; simpl; [done|]. intros r ?. by left.
  - rewrite foldl_app. simpl. by apply step_continues.
Qed.

(** In a numbered buffer the number identifies the record. *)
Lemma numbered_seq_inj (st : State) (r1 r2 : TelemetryRecord) :
  numbered maxBuffer st →
  r1 ∈ records st → r2 ∈ records st → seq r1 = seq r2 → r1 = r2.
Proof.
  intros (Hseq & _) [i Hi]%list_elem_of_lookup [j Hj]%list_elem_of_lookup E.
  pose proof (Hseq _ _ Hi). pose proof (Hseq _ _ Hj).
  assert (i = j) as -> by lia. congruence.
Qed.

Lemma numbered_seq_le (st : State) (r : TelemetryRecord) :
  numbered maxBuffer st → r ∈ records st → seq r ≤ seqRef st.
Proof.
  intros (Hseq & _) [i Hi]%list_elem_of_lookup.
  pose proof (Hseq _ _ Hi). lia.
Qed.

End RecordFacts.

Section PayloadFacts.

Import UseTelemetry.





End PayloadFacts.

(** X15. Whatever text frames and presses of the clear button reach the
    telemetry hook, its records stay numbered: the record at index [i]
    has [seq] equal to [seqRef - i], so the records are newest first, no
    two share a [seq], and the record shown (index 0) is the one
    accepted last; the buffer never holds more than [maxBuffer] records.
    The numbering also runs on across a clear and across dropped frames:
    [seqRef] never decreases, every record of a later state is a record
    of the earlier state or has a [seq] above the earlier [seqRef], and
    so a record of an earlier state and a record of a later state that
    have the same [seq] are the same record. *)
Theorem X15_records_numbered_newest_first (maxBuffer : nat)
    (JSON_parse : string → option Json.t)
    (extractTs : list (string * Json.t) → list (string * Json.t)
                 → UseTelemetry.Outcome (option string))
    (before after : list UseTelemetry.Event) :
  let run := foldl (UseTelemetry.step maxBuffer JSON_parse extractTs) in
  let earlier := run UseTelemetry.initialState before in
  let st := run earlier after in
  (∀ i r, UseTelemetry.records st !! i = Some r →
          UseTelemetry.seq r + i = UseTelemetry.seqRef st) ∧
  length (UseTelemetry.records st) ≤ maxBuffer ∧
  NoDup (UseTelemetry.seq <$> UseTelemetry.records st) ∧
  UseTelemetry.seqRef earlier ≤ UseTelemetry.seqRef st ∧
  (∀ r, r ∈ UseTelemetry.records st →
        r ∈ UseTelemetry.records earlier ∨
        UseTelemetry.seqRef earlier < UseTelemetry.seq r) ∧
  (∀ r1 r2, r1 ∈ UseTelemetry.records earlier →
            r2 ∈ UseTelemetry.records st →
            UseTelemetry.seq r1 = UseTelemetry.seq r2 → r1 = r2).
Proof.
  intros run earlier st.
  assert (H0 : numbered maxBuffer UseTelemetry.initialState)
    by (split_and!; simpl; [done|lia|lia]).
  assert (H1 : numbered maxBuffer earlier) by (by apply run_numbered).
  assert (H2 : numbered maxBuffer st) by (by apply run_numbered).
  destruct (run_continues maxBuffer JSON_parse extractTs after earlier)
    as [Hle Hrec].
  fold run in Hle, Hrec. fold st in Hle, Hrec.
  split_and!; [apply H2|apply H2| |done|done|].
  - destruct H2 as (Hseq & _). apply NoDup_alt. intros i j x Hi Hj.
    apply list_lookup_fmap_Some in Hi as (ri & -> & Hi).
    apply list_lookup_fmap_Some in Hj as (rj & Hx & Hj).
    apply Hseq in Hi, Hj. lia.
  - intros r1 r2 Hr1 Hr2 E.
    destruct (Hrec r2 Hr2) as [Hin|Hlt].
    + by apply (numbered_seq_inj maxBuffer earlier).
    + pose proof (numbered_seq_le maxBuffer earlier r1 H1 Hr1). lia.
Qed.



(** ** The keys picked for a chart *)

(** X17. The keys picked for a chart are candidates, in the order of the
    candidates and without repetition, and each has a number in some row
    of the window, at the top level or under [data], so its data set has at
    least one point; at most [maxN] keys are picked, or one when [maxN] is
    0, since the limit is tested only after a candidate is handled; and
    when fewer than [maxN] are picked, every candidate with a number in
    the window is among them. *)
Theorem X17_picked_keys (windowed : list ChartKeys.Row)
    (candidates : list string) (maxN : nat) :
  sublist (ChartKeys.pickExistingNumericKeys windowed candidates maxN)
          candidates ∧
  NoDup (ChartKeys.pickExistingNumericKeys windowed candidates maxN) ∧
  (∀ k, k ∈ ChartKeys.pickExistingNumericKeys windowed candidates maxN →
        ChartKeys.existsNumeric windowed k = true ∧
        ∃ p, Some p ∈ ChartKeys.buildData windowed k) ∧
  length (ChartKeys.pickExistingNumericKeys windowed candidates maxN)
  ≤ Nat.max maxN 1 ∧
  (length (ChartKeys.pickExistingNumericKeys windowed candidates maxN) < maxN →
   ∀ c, c ∈ candidates → ChartKeys.existsNumeric windowed c = true →
        c ∈ ChartKeys.pickExistingNumericKeys windowed candidates maxN).
Proof.
  unfold ChartKeys.pickExistingNumericKeys.
  destruct (pickLoop_appends windowed maxN candidates [])
    as (extra & E & Hs & Hnd & Hk).
  split_and!.
  - by rewrite E.
  - by rewrite E.
  - rewrite E. simpl. intros k [_ Hnum]%Hk. split; [done|].
    destruct (existsNumeric_point windowed k Hnum) as (r & Hr & [p Hp]).
    exists p. unfold ChartKeys.buildData. apply list_elem_of_fmap. by exists r.
  - apply pickLoop_length. by right.
  - intros Hlen c. by apply pickLoop_complete.
Qed.

(** ** Display coordinates *)

(** X18. The coordinates shown for a decoded pose are its column and
    nine minus its row: the horizontal one is not negative and the
    vertical one lies between 0 and 9; poses at different cells are shown
    with different coordinates; and after a reset the coordinates are
    (0, 0), whatever the state before. *)
Theorem X18_display_coordinates (line : string) (parsed : Grid.Parsed)
    (p : Grid.RoverPose) :
  Grid.parseMatrixLine line = Some parsed →
  Grid.pose parsed = Some p →
  GridView.toDisplayCoords p
  = (Z.of_nat (Grid.col p), 9 - Z.of_nat (Grid.row p))%Z ∧
  (0 ≤ (GridView.toDisplayCoords p).2 ≤ 9)%Z ∧
  (∀ q, GridView.toDisplayCoords q = GridView.toDisplayCoords p →
        Grid.row q = Grid.row p ∧ Grid.col q = Grid.col p) ∧
  (∀ onReset st,
     GridView.toDisplayCoords
       (Grid.st_pose (GridView.handleResetClick onReset st).1) = (0, 0)%Z).
Proof.
  unfold Grid.parseMatrixLine. intros Hp Hpose.
  destruct (Grid.rowTokensOf line) as [toks|]; [|done]. simplify_eq/=.
  pose proof (parseRows_pose toks) as H. rewrite Hpose in H.
  destruct H as [(Hr & _) _]. unfold numRowsOf, Grid.GRID_ROWS in Hr.
  unfold GridView.toDisplayCoords, GridView.ORIGIN_COL, GridView.ORIGIN_ROW.
  simpl. unfold Grid.START_ROW, Grid.START_COL, Grid.GRID_ROWS.
  split_and!; [f_equal; lia|lia|lia| |done].
  intros q [= H1 H2]. lia.
Qed.

Lemma X18_display_coordinates_witness :
  GridView.toDisplayCoords {| Grid.row := 0; Grid.col := 3; Grid.dir := Grid.DirN |}
  = (3, 9)%Z.
Proof.
  destruct (X18_display_coordinates "RECV_ROVER_x,M,0000000000,0002000000"
    {| Grid.grid := [decodeRow "0002000000"; decodeRow "0000000000"];
       Grid.pose := Some {| Grid.row := 0; Grid.col := 3; Grid.dir := Grid.DirN |} |}
    {| Grid.row := 0; Grid.col := 3; Grid.dir := Grid.DirN |}) as [E _];
    [reflexivity..|].
  exact E.
Defined.

(** ** Rendering a record without the field *)

(** X19. When no key of the displayed record equals an alias of a
    category, even up to case and separators, the telemetry column shows
    the dash for that category; in particular every category of an empty
    record shows the dash. *)
Theorem X19_missing_field_renders_dash (numeral : string → option float)
    (c : Telemetry.Category) (d : Telemetry.Obj) :
  (∀ n k, n ∈ Telemetry.NAMES c → k ∈ Telemetry.keys d →
          Telemetry.norm k ≠ Telemetry.norm n) →
  Telemetry.TelemetryColumn numeral c d = Telemetry.Dash.
Proof.
  intros H%getField_None. unfold Telemetry.TelemetryColumn.
  rewrite H. by destruct c.
Qed.

Lemma X19_missing_field_renders_dash_witness :
  Telemetry.TelemetryColumn noNumeral Telemetry.vM2 [] = Telemetry.Dash.
Proof.
  apply (X19_missing_field_renders_dash noNumeral Telemetry.vM2 []).
  intros n k _ Hk. by apply elem_of_nil in Hk.
Defined.
